(** * The MIDI to OSC bridge of raug (crates/raug/examples/midi-osc-server.py)

    A shallow embedding of [main] and of the loop it runs: the status
    match of the loop body, the calls the program makes on the MIDI
    device, the UDP client and the logger, and Python's exceptions with
    [try] / [except KeyboardInterrupt] / [finally]. *)

From Stdlib Require Import ZArith NArith List Ascii String Bool Lia PeanoNat.
Import ListNotations.

Local Open Scope string_scope.
Local Open Scope list_scope.
Local Open Scope Z_scope.

(** ** Data *)

(** One element of [midi_input.read(10)]: [[[status, d1, d2, d3], timestamp]].
    The loop unpacks it with [data, _ = event] and
    [status, note, velocity, _ = data]. Python integers are unbounded. *)
Record midi_event := MidiEvent {
  ev_status : Z;
  ev_data1 : Z;
  ev_data2 : Z;
  ev_data3 : Z;
  ev_timestamp : Z
}.

(** The arms of [match status & 0xF0], named as the specification names
    the decoder's results. [Unrecognized] is the case where no arm
    matches and the statement does nothing. *)
Inductive semantic_event :=
| NoteOn (note velocity : Z)
| NoteOff (note velocity : Z)
| ControlChange (controller value : Z)
| PitchBend (value : Z)
| Unrecognized.

(** [status & 0xF0] *)
Definition status_nibble (status : Z) : Z := Z.land status 0xF0.

(** [value = (velocity << 7) | note] *)
Definition pitch_bend_value (note velocity : Z) : Z :=
  Z.lor (Z.shiftl velocity 7) note.

(** Which arm of the match statement is taken. The arms are tried in
    order: [case 0x90 if velocity > 0], [case 0x80 | 0x90], [case 0xB0],
    [case 0xE0]. *)
Definition decode (status note velocity : Z) : semantic_event :=
  let nibble := status_nibble status in
  if (nibble =? 0x90) && (velocity >? 0) then NoteOn note velocity
  else if (nibble =? 0x80) || (nibble =? 0x90) then NoteOff note velocity
  else if nibble =? 0xB0 then ControlChange note velocity
  else if nibble =? 0xE0 then PitchBend (pitch_bend_value note velocity)
  else Unrecognized.

(** ** Calls on the outside world *)

Inductive level := INFO | ERROR.

(** A value interpolated into an f-string. *)
Inductive fval :=
| VInt (z : Z)
| VStr (s : string)
| VInts (l : list Z).

(** The library calls of the program. A log call keeps the literal text
    of its f-string and the values interpolated into it, in order.
    [ArgumentParser] and [Dispatcher()] only build objects of the
    program and are not calls; [disp.map] is kept so that a trace shows
    the handler being registered. *)
Inductive call :=
| midi_init
| midi_quit
| midi_get_count
| midi_get_device_info (i : Z)
| midi_get_default_input_id
| disp_map (address handler : string)
| midi_Input (input_id : Z)
| SimpleUDPClient (client_ip : string) (client_port : Z)
| input_poll
| input_read (num_events : Z)
| input_close
| send_message (address : string) (args : list Z)
| logger (lvl : level) (template : string) (vals : list fval)
| time_sleep_ms (ms : Z).

Inductive exn :=
| KeyboardInterrupt
| SystemExit (code : Z)
| OSError
| MidiException
| UnicodeDecodeError.

Definition is_keyboard_interrupt (e : exn) : bool :=
  match e with KeyboardInterrupt => true | _ => false end.

(** [pygame.midi.get_device_info(i)]:
    [(interf, name, is_input, is_output, opened)]. [interf] and [name]
    are Python [bytes]: a string here is the sequence of its bytes. *)
Record device_info := DeviceInfo {
  interf : string;
  name : string;
  is_input : Z;
  is_output : Z;
  opened : Z
}.

(** The byte sequences [bytes.decode()] accepts: well-formed UTF-8, with
    no overlong form, no surrogate and nothing above U+10FFFF. *)
Definition between (lo hi b : N) : bool := (lo <=? b)%N && (b <=? hi)%N.

Definition continuation (b : N) : bool := between 0x80 0xBF b.

Fixpoint utf8_valid (bs : list N) : bool :=
  match bs with
  | [] => true
  | b0 :: rest =>
      if (b0 <=? 0x7F)%N then utf8_valid rest
      else if between 0xC2 0xDF b0 then
        match rest with
        | b1 :: rest1 => continuation b1 && utf8_valid rest1
        | _ => false
        end
      else if between 0xE0 0xEF b0 then
        match rest with
        | b1 :: b2 :: rest2 =>
            (if (b0 =? 0xE0)%N then between 0xA0 0xBF b1
             else if (b0 =? 0xED)%N then between 0x80 0x9F b1
             else continuation b1)
            && continuation b2 && utf8_valid rest2
        | _ => false
        end
      else if between 0xF0 0xF4 b0 then
        match rest with
        | b1 :: b2 :: b3 :: rest3 =>
            (if (b0 =? 0xF0)%N then between 0x90 0xBF b1
             else if (b0 =? 0xF4)%N then between 0x80 0x8F b1
             else continuation b1)
            && continuation b2 && continuation b3 && utf8_valid rest3
        | _ => false
        end
      else false
  end.

Definition decodes (b : string) : bool :=
  utf8_valid (map N_of_ascii (list_ascii_of_string b)).

(** The command line after [parser.parse_args()]. *)
Record arguments := Arguments_ {
  ip : string;
  port : Z;
  client_ip : string;
  client_port : Z;
  midi_device : option Z;
  list_midi_devices : bool
}.

Definition default_arguments : arguments :=
  {| ip := "localhost"; port := 8000;
     client_ip := "localhost"; client_port := 9000;
     midi_device := None; list_midi_devices := false |}.

(** The outside world of one run. Calls are numbered from 0 in the order
    the program makes them; the world fixes, for the call numbered [k],
    whether it raises ([faults k]) and, for a poll or a read, what it
    answers. A [KeyboardInterrupt] delivered while the program runs is a
    fault of the call it interrupts. *)
Record world := World {
  devices : list device_info;
  default_input_id : Z;
  poll_answer : nat -> bool;
  read_answer : nat -> list midi_event;
  faults : nat -> option exn
}.

(** ** The program monad *)

Record state := State {
  clock : nat;
  trace : list call
}.

Definition initial : state := {| clock := 0; trace := [] |}.

(** [Running]: the loop has not ended within the iterations allowed. *)
Inductive result (A : Type) :=
| Ok (a : A)
| Raise (e : exn)
| Running.
Arguments Ok {A} a.
Arguments Raise {A} e.
Arguments Running {A}.

Definition M (A : Type) : Type := state -> result A * state.

Definition ret {A} (a : A) : M A := fun s => (Ok a, s).

Definition raise {A} (e : exn) : M A := fun s => (Raise e, s).

Definition bind {A B} (m : M A) (f : A -> M B) : M B :=
  fun s =>
    match m s with
    | (Ok a, s') => f a s'
    | (Raise e, s') => (Raise e, s')
    | (Running, s') => (Running, s')
    end.

Declare Scope prog_scope.
Delimit Scope prog_scope with prog.
Notation "x <- c1 ;; c2" := (bind c1 (fun x => c2))
  (at level 100, c1 at next level, right associativity) : prog_scope.
Notation "c1 ;; c2" := (bind c1 (fun _ => c2))
  (at level 100, right associativity) : prog_scope.

(** [try: body / except KeyboardInterrupt: handler] *)
Definition try_except_KeyboardInterrupt (body handler : M unit) : M unit :=
  fun s =>
    match body s with
    | (Raise e, s') =>
        if is_keyboard_interrupt e then handler s' else (Raise e, s')
    | other => other
    end.

(** [try: body / finally: final]. The final block runs when the body
    ends, normally or by an exception, which is raised again after it
    unless the final block raises one of its own. *)
Definition try_finally (body final : M unit) : M unit :=
  fun s =>
    match body s with
    | (Ok a, s') => final s'
    | (Raise e, s') =>
        match final s' with
        | (Ok _, s'') => (Raise e, s'')
        | other => other
        end
    | (Running, s') => (Running, s')
    end.

(** [b.decode()]: the text of [b], kept as its UTF-8 bytes, or
    [UnicodeDecodeError]. *)
Definition bytes_decode (b : string) : M string :=
  if decodes b then ret b else raise UnicodeDecodeError.

(** [for x in xs: body x] *)
Fixpoint for_each {A} (xs : list A) (body : A -> M unit) : M unit :=
  match xs with
  | [] => ret tt
  | x :: rest => (body x ;; for_each rest body)%prog
  end.

Section Program.

Variable W : world.

(** A library call that answers [a]: it raises if the world says so,
    and is recorded in the trace when it completes. *)
Definition perform {A} (c : call) (a : A) : M A :=
  fun s =>
    match faults W (clock s) with
    | Some e => (Raise e, {| clock := S (clock s); trace := trace s |})
    | None => (Ok a, {| clock := S (clock s); trace := trace s ++ [c] |})
    end.

Definition invoke (c : call) : M unit := perform c tt.

Definition logger_info (template : string) (vals : list fval) : M unit :=
  invoke (logger INFO template vals).

Definition logger_error (template : string) (vals : list fval) : M unit :=
  invoke (logger ERROR template vals).

Definition sys_exit {A} (code : Z) : M A := raise (SystemExit code).

(** [midi_input.poll()] and [midi_input.read(n)] *)
Definition poll : M bool :=
  fun s => perform input_poll (poll_answer W (clock s)) s.

Definition read (n : Z) : M (list midi_event) :=
  fun s => perform (input_read n) (read_answer W (clock s)) s.

(** [def print_handler(address, *args)] *)
Definition print_handler (address : string) (args : list Z) : M unit :=
  logger_info "Received message at {address}: {args}" [VStr address; VInts args].

(** The body of [for event in midi_events]. *)
Definition process_event (event : midi_event) : M unit :=
  let status := ev_status event in
  let note := ev_data1 event in
  let velocity := ev_data2 event in
  (invoke (send_message "/midi" [status; note; velocity]) ;;
   logger_info "/midi {status} {note} {velocity}" [VInt status; VInt note; VInt velocity] ;;
   let subject := Z.land status 0xF0 in
   if (subject =? 0x90) && (velocity >? 0) then
     invoke (send_message "/note_on" [note; velocity]) ;;
     logger_info "/note_on {note} {velocity}" [VInt note; VInt velocity]
   else if (subject =? 0x80) || (subject =? 0x90) then
     invoke (send_message "/note_off" [note; velocity]) ;;
     logger_info "/note_off {note} {velocity}" [VInt note; VInt velocity]
   else if subject =? 0xB0 then
     invoke (send_message "/control_change" [note; velocity]) ;;
     logger_info "/control_change {note} {velocity}" [VInt note; VInt velocity]
   else if subject =? 0xE0 then
     let value := Z.lor (Z.shiftl velocity 7) note in
     invoke (send_message "/pitch_bend" [value]) ;;
     logger_info "/pitch_bend {value}" [VInt value]
   else ret tt)%prog.

(** The body of [while True]. [time.sleep(0.01)] is the last statement
    of the loop body, after the [if]; the interval is written here in
    milliseconds. *)
Definition loop_body : M unit :=
  (pending <- poll ;;
   (if pending : bool then
      midi_events <- read 10 ;;
      for_each midi_events process_event
    else ret tt) ;;
   invoke (time_sleep_ms 10))%prog.

(** [while True: loop_body], for at most [fuel] iterations. *)
Fixpoint loop (fuel : nat) : M unit :=
  match fuel with
  | O => fun s => (Running, s)
  | S fuel' => (loop_body ;; loop fuel')%prog
  end.

(** [for i in range(pygame.midi.get_count())] of the listing mode. The
    f-string is evaluated before [logger.info] is called: it decodes
    [interf], then [name], and either decoding may raise. *)
Definition list_device (i : Z) : M unit :=
  (info <- perform (midi_get_device_info i)
                   (nth (Z.to_nat i) (devices W) (DeviceInfo "" "" 0 0 0)) ;;
   if is_input info =? 0 then ret tt
   else
     interf_text <- bytes_decode (interf info) ;;
     name_text <- bytes_decode (name info) ;;
     logger_info
       "ID {i}: Interface: {interf.decode()}, Name: {name.decode()}, Opened: {opened}"
       [VInt i; VStr interf_text; VStr name_text; VInt (opened info)])%prog.

Definition range (n : Z) : list Z := map Z.of_nat (seq 0 (Z.to_nat n)).

Definition list_mode : M unit :=
  (count <- perform midi_get_count (Z.of_nat (List.length (devices W))) ;;
   for_each (range count) list_device ;;
   invoke midi_quit ;;
   sys_exit 0)%prog.

(** [if args.midi_device is None: ... else: input_id = args.midi_device] *)
Definition select_input (args : arguments) : M Z :=
  match midi_device args with
  | None =>
      (input_id <- perform midi_get_default_input_id (default_input_id W) ;;
       if input_id =? -1 then
         logger_error "No MIDI input device found." [] ;;
         sys_exit 1
       else ret input_id)%prog
  | Some d => ret d
  end.

(** [main] up to the [try] statement: it ends with the device open and
    the UDP client made. *)
Definition startup (args : arguments) : M unit :=
  (invoke midi_init ;;
   (if list_midi_devices args then list_mode else ret tt) ;;
   invoke (disp_map "/print" "print_handler") ;;
   input_id <- select_input args ;;
   invoke (midi_Input input_id) ;;
   logger_info "Using MIDI input device ID {input_id}" [VInt input_id] ;;
   invoke (SimpleUDPClient (client_ip args) (client_port args)))%prog.

Definition on_interrupt : M unit := logger_info "Shutting down server." [].

Definition on_exit : M unit :=
  (invoke input_close ;;
   invoke midi_quit ;;
   logger_info "Server closed." [])%prog.

(** The [try] statement of [main]. *)
Definition serve (fuel : nat) : M unit :=
  try_finally (try_except_KeyboardInterrupt (loop fuel) on_interrupt) on_exit.

Definition main (args : arguments) (fuel : nat) : M unit :=
  (startup args ;; serve fuel)%prog.

End Program.

(** The exit status of the interpreter when [main] ends with [r]: 0 when
    it returns, the code of a [SystemExit], and a status other than 0
    for an exception nobody caught (CPython: 130 for a
    [KeyboardInterrupt], else 1). A run that is still going has none. *)
Definition exit_status (r : result unit) : option Z :=
  match r with
  | Ok _ => Some 0
  | Raise (SystemExit code) => Some code
  | Raise KeyboardInterrupt => Some 130
  | Raise _ => Some 1
  | Running => None
  end.

(** ** What a trace holds *)

(** The OSC messages sent, in order. *)
Fixpoint sent (t : list call) : list (string * list Z) :=
  match t with
  | [] => []
  | send_message address args :: rest => (address, args) :: sent rest
  | _ :: rest => sent rest
  end.

Definition is_close (c : call) : bool :=
  match c with input_close => true | _ => false end.

Definition is_sleep (c : call) : bool :=
  match c with time_sleep_ms _ => true | _ => false end.

Definition is_error_log (c : call) : bool :=
  match c with logger ERROR _ _ => true | _ => false end.

Definition count (p : call -> bool) (t : list call) : nat :=
  List.length (filter p t).

Definition addressed (address : string) (m : string * list Z) : bool :=
  String.eqb (fst m) address.

(** ** The calls of the loop, as lists *)

(** The calls of the arm taken. *)
Definition dispatch (e : semantic_event) : list call :=
  match e with
  | NoteOn note velocity =>
      [send_message "/note_on" [note; velocity];
       logger INFO "/note_on {note} {velocity}" [VInt note; VInt velocity]]
  | NoteOff note velocity =>
      [send_message "/note_off" [note; velocity];
       logger INFO "/note_off {note} {velocity}" [VInt note; VInt velocity]]
  | ControlChange controller value =>
      [send_message "/control_change" [controller; value];
       logger INFO "/control_change {note} {velocity}" [VInt controller; VInt value]]
  | PitchBend value =>
      [send_message "/pitch_bend" [value];
       logger INFO "/pitch_bend {value}" [VInt value]]
  | Unrecognized => []
  end.

(** The raw message of an event. *)
Definition raw_message (event : midi_event) : string * list Z :=
  ("/midi", [ev_status event; ev_data1 event; ev_data2 event]).

Definition raw_calls (event : midi_event) : list call :=
  [send_message "/midi" [ev_status event; ev_data1 event; ev_data2 event];
   logger INFO "/midi {status} {note} {velocity}"
     [VInt (ev_status event); VInt (ev_data1 event); VInt (ev_data2 event)]].

Definition decode_event (event : midi_event) : semantic_event :=
  decode (ev_status event) (ev_data1 event) (ev_data2 event).

(** What [process_event] calls when nothing raises. *)
Definition event_calls (event : midi_event) : list call :=
  raw_calls event ++ dispatch (decode_event event).

(** The OSC messages of one event. *)
Definition event_messages (event : midi_event) : list (string * list Z) :=
  sent (event_calls event).

Definition batch_calls (events : list midi_event) : list call :=
  flat_map event_calls events.

Section Calls.

Variable W : world.

(** No call numbered [from], ..., [from + len - 1] raises. *)
Definition quiet (from len : nat) : Prop :=
  forall j, (j < len)%nat -> faults W (from + j) = None.

(** The first of the calls numbered [from], ..., [from + len - 1] that
    raises, counted from [from], and what it raises. *)
Fixpoint first_fault (from len : nat) : option (nat * exn) :=
  match len with
  | O => None
  | S len' =>
      match faults W from with
      | Some e => Some (O, e)
      | None =>
          match first_fault (S from) len' with
          | Some (j, e) => Some (S j, e)
          | None => None
          end
      end
  end.

Definition invoke_all (l : list call) : M unit := for_each l (invoke W).

(** One iteration of the loop that starts at call number [c]. *)
Definition iteration_calls (c : nat) : list call :=
  if poll_answer W c then
    input_poll :: input_read 10 :: batch_calls (read_answer W (S c)) ++ [time_sleep_ms 10]
  else [input_poll; time_sleep_ms 10].

(** [fuel] iterations in a row, the first one starting at call number [c]. *)
Fixpoint loop_calls (fuel c : nat) : list call :=
  match fuel with
  | O => []
  | S fuel' =>
      iteration_calls c ++ loop_calls fuel' (c + List.length (iteration_calls c))
  end.

End Calls.

(** A loop that never ends by itself: running out of calls is running on. *)
Definition forever (m : M unit) : M unit :=
  fun s =>
    match m s with
    | (Ok _, s') => (Running, s')
    | other => other
    end.

(** ** Worlds and command lines of the examples, and observers *)

(** A world where the device always has the same events to give, and
    call number [k] raises [e] when [fault] is [Some (k, e)]. *)
Definition scripted (events : list midi_event) (fault : option (nat * exn)) : world :=
  {| devices := [];
     default_input_id := 0;
     poll_answer := fun _ => negb (Nat.eqb (List.length events) 0);
     read_answer := fun _ => events;
     faults := fun k =>
       match fault with
       | Some (k', e) => if Nat.eqb k k' then Some e else None
       | None => None
       end |}.

Definition note_on_60 : midi_event := MidiEvent 0x90 60 100 0 0.
Definition note_on_60_zero : midi_event := MidiEvent 0x90 60 0 0 0.
Definition bend_center : midi_event := MidiEvent 0xE0 0x00 0x40 0 0.
Definition program_change : midi_event := MidiEvent 0xC0 5 0 0 0.

(** Whatever [m] adds to the trace satisfies [P]. *)
Definition only {A} (P : call -> bool) (m : M A) : Prop :=
  forall s r s', m s = (r, s') ->
    exists d, trace s' = trace s ++ d /\ forallb P d = true.

(** A log call made by [print_handler]. *)
Definition is_print_handler_log (c : call) : bool :=
  match c with
  | logger _ template _ => String.eqb template "Received message at {address}: {args}"
  | _ => false
  end.

Definition not_print_handler_log (c : call) : bool := negb (is_print_handler_log c).

Definition not_close (c : call) : bool := negb (is_close c).

(** The calls of the [finally] block. *)
Definition closing : list call :=
  [input_close; midi_quit; logger INFO "Server closed." []].

(** The calls the loop completed before call number [k] raised. *)
Definition completed (W : world) (fuel : nat) (s : state) (k : nat) : list call :=
  firstn (k - clock s) (loop_calls W fuel (clock s)).

(** The command line [--midi-device d]. *)
Definition explicit_device (d : Z) : arguments :=
  {| ip := "localhost"; port := 8000;
     client_ip := "localhost"; client_port := 9000;
     midi_device := Some d; list_midi_devices := false |}.

(** The command line with other values for [--ip] and [--port]. *)
Definition with_listen (args : arguments) (ip' : string) (port' : Z) : arguments :=
  {| ip := ip'; port := port';
     client_ip := client_ip args; client_port := client_port args;
     midi_device := midi_device args;
     list_midi_devices := list_midi_devices args |}.

(** ** Listing mode, start-up and shutdown, as lists of calls *)

(** Both names of the device decode. *)
Definition decodable (info : device_info) : bool :=
  decodes (interf info) && decodes (name info).

(** The listing loop gets past the device: it is no input, or its
    names decode. *)
Definition listable (info : device_info) : bool :=
  (is_input info =? 0) || decodable info.

Definition listing_ok (ds : list device_info) : bool := forallb listable ds.

(** The calls of the listing loop for the device of index [i]. *)
Definition listed (i : Z) (info : device_info) : list call :=
  midi_get_device_info i
    :: (if is_input info =? 0 then []
        else if decodable info then
          [logger INFO
             "ID {i}: Interface: {interf.decode()}, Name: {name.decode()}, Opened: {opened}"
             [VInt i; VStr (interf info); VStr (name info); VInt (opened info)]]
        else []).

(** The calls of the listing loop from the device of index [i] on: it
    stops at the first input device with a name that does not decode. *)
Fixpoint listing_from (i : nat) (ds : list device_info) : list call :=
  match ds with
  | [] => []
  | d :: rest =>
      listed (Z.of_nat i) d ++ (if listable d then listing_from (S i) rest else [])
  end.

(** What [main] calls with [--list-midi-devices] when no call raises:
    MIDI is quit only when the loop got past every device. *)
Definition listing_calls (ds : list device_info) : list call :=
  midi_init :: midi_get_count
    :: listing_from 0 ds ++ (if listing_ok ds then [midi_quit] else []).

(** How the listing ends when no call raises: by [sys.exit(0)], or by
    the decoding error of a device name. *)
Definition listing_exit (ds : list device_info) : exn :=
  if listing_ok ds then SystemExit 0 else UnicodeDecodeError.

Definition is_quit (c : call) : bool :=
  match c with midi_quit => true | _ => false end.

(** A world with one input device whose name is the single byte 0xFF. *)
Definition bad_name : world :=
  {| devices := [DeviceInfo "ALSA" "Midi Through Port-0" 0 1 0;
                 DeviceInfo "ALSA" (String (ascii_of_nat 255) EmptyString) 1 0 0;
                 DeviceInfo "ALSA" "Keystation" 1 0 0];
     default_input_id := 1;
     poll_answer := fun _ => false;
     read_answer := fun _ => [];
     faults := fun _ => None |}.

(** The device id the session is opened with. *)
Definition chosen_input (W : world) (args : arguments) : Z :=
  match midi_device args with
  | Some d => d
  | None => default_input_id W
  end.

(** What [main] calls before the [try] statement when a device is at
    hand and nothing raises. *)
Definition startup_calls (W : world) (args : arguments) : list call :=
  [midi_init; disp_map "/print" "print_handler"]
    ++ (match midi_device args with
        | Some _ => []
        | None => [midi_get_default_input_id]
        end)
    ++ [midi_Input (chosen_input W args);
        logger INFO "Using MIDI input device ID {input_id}" [VInt (chosen_input W args)];
        SimpleUDPClient (client_ip args) (client_port args)].

(** The call of the [except KeyboardInterrupt] block. *)
Definition interrupted : list call := [logger INFO "Shutting down server." []].

Definition is_send (c : call) : bool :=
  match c with send_message _ _ => true | _ => false end.

Definition is_poll (c : call) : bool :=
  match c with input_poll => true | _ => false end.

Definition is_log (c : call) : bool :=
  match c with logger _ _ _ => true | _ => false end.

Definition is_open (c : call) : bool :=
  match c with midi_Input _ => true | _ => false end.

(** Sends and log lines go in pairs: each message is followed at once
    by an INFO line whose text starts with the address of the message
    and whose values are the arguments of the message. *)
Inductive logged_sends : list call -> Prop :=
| logged_none : logged_sends []
| logged_pair (address : string) (margs : list Z) (template : string) (rest : list call) :
    String.prefix address template = true ->
    logged_sends rest ->
    logged_sends (send_message address margs
                    :: logger INFO template (map VInt margs) :: rest).

(** No device to open: no [--midi-device] and no default input. *)
Definition no_device (W : world) (args : arguments) : bool :=
  match midi_device args with
  | Some _ => false
  | None => default_input_id W =? -1
  end.

(** What [main] calls when there is no device to open and nothing raises. *)
Definition no_device_calls : list call :=
  [midi_init; disp_map "/print" "print_handler"; midi_get_default_input_id;
   logger ERROR "No MIDI input device found." []].

Definition is_input_device (info : device_info) : bool := negb (is_input info =? 0).

(** A world with an output port and an input keyboard, where no call
    raises and the device stays silent. *)
Definition two_devices : world :=
  {| devices := [DeviceInfo "ALSA" "Midi Through Port-0" 0 1 0;
                 DeviceInfo "ALSA" "Keystation" 1 0 0];
     default_input_id := 1;
     poll_answer := fun _ => false;
     read_answer := fun _ => [];
     faults := fun _ => None |}.

(** The command line [--list-midi-devices --midi-device 1]. *)
Definition listing_arguments : arguments :=
  {| ip := "localhost"; port := 8000;
     client_ip := "localhost"; client_port := 9000;
     midi_device := Some 1; list_midi_devices := true |}.

(** [m] ends whenever it is run: it does not stay in a loop. *)
Definition halts {A} (m : M A) : Prop :=
  forall s r s', m s = (r, s') -> r <> Running.

(** A world like [scripted] where each call number listed in [fs]
    raises the exception listed with it. *)
Fixpoint fault_at (fs : list (nat * exn)) (k : nat) : option exn :=
  match fs with
  | [] => None
  | (k', e) :: rest => if Nat.eqb k k' then Some e else fault_at rest k
  end.

Definition faulty (events : list midi_event) (fs : list (nat * exn)) : world :=
  {| devices := [];
     default_input_id := 0;
     poll_answer := fun _ => negb (Nat.eqb (List.length events) 0);
     read_answer := fun _ => events;
     faults := fault_at fs |}.

(** ** The decoder *)

Lemma nibble_cases (status note velocity : Z) :
  decode status note velocity =
    if (status_nibble status =? 0x90) && (velocity >? 0) then NoteOn note velocity
    else if (status_nibble status =? 0x80) || (status_nibble status =? 0x90)
         then NoteOff note velocity
    else if status_nibble status =? 0xB0 then ControlChange note velocity
    else if status_nibble status =? 0xE0 then PitchBend (pitch_bend_value note velocity)
    else Unrecognized.
Proof. reflexivity. Qed.

Ltac nibble_tests :=
  repeat match goal with
    | H : ?n = _ |- context [?n =? _] => rewrite H
    | |- context [?a =? ?b] =>
        let E := fresh "E" in
        destruct (Z.eqb_spec a b) as [E | E]; try (exfalso; lia); try discriminate
    | |- context [?a >? ?b] =>
        let E := fresh "E" in
        destruct (Z.gtb_spec a b) as [E | E]; try (exfalso; lia)
    end; cbn [andb orb].

(** C1: on every raw datum the decoder answers by the table of status
    nibbles: 0x90 with data2 > 0 is NoteOn, 0x90 with data2 = 0 and 0x80
    with any data2 are NoteOff, 0xB0 is ControlChange, 0xE0 is PitchBend
    of [(data2 << 7) | data1], any other nibble is Unrecognized; and it
    never answers a NoteOn of velocity 0. *)
Theorem decode_table (status data1 data2 : Z) :
  (status_nibble status = 0x90 -> data2 > 0 ->
     decode status data1 data2 = NoteOn data1 data2) /\
  (status_nibble status = 0x90 -> data2 = 0 ->
     decode status data1 data2 = NoteOff data1 data2) /\
  (status_nibble status = 0x80 ->
     decode status data1 data2 = NoteOff data1 data2) /\
  (status_nibble status = 0xB0 ->
     decode status data1 data2 = ControlChange data1 data2) /\
  (status_nibble status = 0xE0 ->
     decode status data1 data2 = PitchBend (Z.lor (Z.shiftl data2 7) data1)) /\
  (status_nibble status <> 0x80 -> status_nibble status <> 0x90 ->
   status_nibble status <> 0xB0 -> status_nibble status <> 0xE0 ->
     decode status data1 data2 = Unrecognized) /\
  (forall note, decode status data1 data2 <> NoteOn note 0).
Proof.
  rewrite nibble_cases.
  repeat split; intros; try (nibble_tests; reflexivity).
  nibble_tests; try discriminate.
  intro N; inversion N; lia.
Qed.

(** ** Runs of lists of calls *)

Lemma bind_ext {A B} (m m' : M A) (f f' : A -> M B) (s : state) :
  m s = m' s ->
  (forall a s', f a s' = f' a s') ->
  bind m f s = bind m' f' s.
Proof.
  intros Hm Hf. unfold bind. rewrite Hm.
  destruct (m' s) as [[a | e |] s']; auto.
Qed.

Lemma bind_ret_unit (m : M unit) (s : state) :
  bind m (fun _ => ret tt) s = m s.
Proof.
  unfold bind, ret. destruct (m s) as [[[] | e |] s']; reflexivity.
Qed.

Lemma bind_assoc {A B C} (m : M A) (f : A -> M B) (g : B -> M C) (s : state) :
  bind (bind m f) g s = bind m (fun a => bind (f a) g) s.
Proof.
  unfold bind. destruct (m s) as [[a | e |] s']; reflexivity.
Qed.

Section Runs.

Variable W : world.

Lemma invoke_all_app (l1 l2 : list call) (s : state) :
  invoke_all W (l1 ++ l2) s = bind (invoke_all W l1) (fun _ => invoke_all W l2) s.
Proof.
  revert s. induction l1 as [| c l1 IH]; intro s.
  - reflexivity.
  - cbn [app invoke_all for_each]. rewrite bind_assoc.
    apply bind_ext; [reflexivity | intros; apply IH].
Qed.

Lemma for_each_calls {A} (calls : A -> list call) (body : A -> M unit) (xs : list A) :
  (forall x s, body x s = invoke_all W (calls x) s) ->
  forall s, for_each xs body s = invoke_all W (flat_map calls xs) s.
Proof.
  intros Hbody. induction xs as [| x xs IH]; intro s.
  - reflexivity.
  - cbn [for_each flat_map]. rewrite invoke_all_app.
    apply bind_ext; [apply Hbody | intros; apply IH].
Qed.

(** A list of calls runs up to the first one that raises. *)
Lemma invoke_all_run (l : list call) (s : state) :
  invoke_all W l s =
    match first_fault W (clock s) (List.length l) with
    | None => (Ok tt, {| clock := clock s + List.length l; trace := trace s ++ l |})
    | Some (j, e) =>
        (Raise e, {| clock := clock s + S j; trace := trace s ++ firstn j l |})
    end.
Proof.
  revert s. induction l as [| c l IH]; intro s.
  - cbn. rewrite Nat.add_0_r, app_nil_r. destruct s; reflexivity.
  - cbn [invoke_all for_each List.length first_fault].
    unfold bind at 1. unfold invoke at 1, perform.
    destruct (faults W (clock s)) as [e |].
    + cbn. rewrite app_nil_r, Nat.add_1_r. reflexivity.
    + fold (invoke_all W l). rewrite IH. cbn [clock trace].
      destruct (first_fault W (S (clock s)) (List.length l)) as [[j e] |].
      * cbn [firstn]. rewrite <- app_assoc. cbn [app].
        do 2 f_equal. lia.
      * rewrite <- app_assoc. cbn [app].
        do 2 f_equal. lia.
Qed.

Lemma first_fault_quiet (from len : nat) :
  quiet W from len -> first_fault W from len = None.
Proof.
  revert from. induction len as [| len IH]; intros from Q.
  - reflexivity.
  - cbn. rewrite <- (Nat.add_0_r from) at 1. rewrite (Q O) by lia.
    rewrite IH; [reflexivity |].
    intros j Hj. rewrite Nat.add_succ_comm. apply Q. lia.
Qed.

Lemma first_fault_at (from len j : nat) (e : exn) :
  (j < len)%nat ->
  quiet W from j ->
  faults W (from + j) = Some e ->
  first_fault W from len = Some (j, e).
Proof.
  revert from len. induction j as [| j IH]; intros from len Hlt Q F.
  - destruct len as [| len]; [lia |]. cbn.
    rewrite Nat.add_0_r in F. rewrite F. reflexivity.
  - destruct len as [| len]; [lia |]. cbn.
    rewrite <- (Nat.add_0_r from) at 1. rewrite (Q O) by lia.
    rewrite (IH (S from) len); [reflexivity | lia | |].
    + intros i Hi. rewrite Nat.add_succ_comm. apply Q. lia.
    + rewrite Nat.add_succ_comm. exact F.
Qed.

Lemma invoke_all_quiet (l : list call) (s : state) :
  quiet W (clock s) (List.length l) ->
  invoke_all W l s =
    (Ok tt, {| clock := clock s + List.length l; trace := trace s ++ l |}).
Proof.
  intro Q. rewrite invoke_all_run, first_fault_quiet by exact Q. reflexivity.
Qed.

Lemma bind_perform {A B} (c : call) (a : A) (f : A -> M B) (s : state) :
  bind (perform W c a) f s =
    match faults W (clock s) with
    | Some e => (Raise e, {| clock := S (clock s); trace := trace s |})
    | None => f a {| clock := S (clock s); trace := trace s ++ [c] |}
    end.
Proof.
  unfold bind, perform. destruct (faults W (clock s)); reflexivity.
Qed.

Lemma bind_poll {B} (f : bool -> M B) (s : state) :
  bind (poll W) f s =
    match faults W (clock s) with
    | Some e => (Raise e, {| clock := S (clock s); trace := trace s |})
    | None =>
        f (poll_answer W (clock s))
          {| clock := S (clock s); trace := trace s ++ [input_poll] |}
    end.
Proof.
  unfold bind, poll, perform. destruct (faults W (clock s)); reflexivity.
Qed.

Lemma bind_read {B} (n : Z) (f : list midi_event -> M B) (s : state) :
  bind (read W n) f s =
    match faults W (clock s) with
    | Some e => (Raise e, {| clock := S (clock s); trace := trace s |})
    | None =>
        f (read_answer W (clock s))
          {| clock := S (clock s); trace := trace s ++ [input_read n] |}
    end.
Proof.
  unfold bind, read, perform. destruct (faults W (clock s)); reflexivity.
Qed.

Lemma invoke_all_cons (c : call) (l : list call) (s : state) :
  invoke_all W (c :: l) s = bind (perform W c tt) (fun _ => invoke_all W l) s.
Proof. reflexivity. Qed.

(** [process_event] makes the calls of [event_calls], in order. *)
Lemma process_event_calls (event : midi_event) (s : state) :
  process_event W event s = invoke_all W (event_calls event) s.
Proof.
  unfold process_event, event_calls, raw_calls, decode_event, decode,
    status_nibble, pitch_bend_value, logger_info.
  cbn [app invoke_all for_each].
  apply bind_ext; [reflexivity | intros _ s1].
  apply bind_ext; [reflexivity | intros _ s2].
  destruct ((Z.land (ev_status event) 240 =? 144) && (ev_data2 event >? 0)).
  { cbn. apply bind_ext; [reflexivity | intros; symmetry; apply bind_ret_unit]. }
  destruct ((Z.land (ev_status event) 240 =? 128) || (Z.land (ev_status event) 240 =? 144)).
  { cbn. apply bind_ext; [reflexivity | intros; symmetry; apply bind_ret_unit]. }
  destruct (Z.land (ev_status event) 240 =? 176).
  { cbn. apply bind_ext; [reflexivity | intros; symmetry; apply bind_ret_unit]. }
  destruct (Z.land (ev_status event) 240 =? 224).
  { cbn. apply bind_ext; [reflexivity | intros; symmetry; apply bind_ret_unit]. }
  reflexivity.
Qed.

Lemma batch_run (events : list midi_event) (s : state) :
  for_each events (process_event W) s = invoke_all W (batch_calls events) s.
Proof.
  apply for_each_calls. apply process_event_calls.
Qed.

(** [loop_body] makes the calls of [iteration_calls], in order. *)
Lemma loop_body_calls (s : state) :
  loop_body W s = invoke_all W (iteration_calls W (clock s)) s.
Proof.
  unfold loop_body, iteration_calls.
  rewrite bind_poll.
  destruct (poll_answer W (clock s)).
  - rewrite invoke_all_cons, bind_perform.
    destruct (faults W (clock s)) as [e |]; [reflexivity |].
    rewrite bind_assoc, bind_read, invoke_all_cons, bind_perform. cbn [clock trace].
    destruct (faults W (S (clock s))) as [e |]; [reflexivity |].
    rewrite invoke_all_app.
    apply bind_ext; [apply batch_run | intros; symmetry; apply bind_ret_unit].
  - rewrite invoke_all_cons, bind_perform.
    destruct (faults W (clock s)) as [e |]; [reflexivity |].
    symmetry. apply bind_ret_unit.
Qed.

Lemma iteration_calls_length (c : nat) :
  (2 <= List.length (iteration_calls W c))%nat.
Proof.
  unfold iteration_calls. destruct (poll_answer W c); cbn; lia.
Qed.

Lemma loop_calls_length (fuel c : nat) :
  (2 * fuel <= List.length (loop_calls W fuel c))%nat.
Proof.
  revert c. induction fuel as [| fuel IH]; intro c.
  - cbn. lia.
  - cbn [loop_calls]. rewrite length_app.
    pose proof (iteration_calls_length c).
    pose proof (IH (c + List.length (iteration_calls W c))%nat). lia.
Qed.

(** The loop makes the calls of [loop_calls], and does not end unless
    one of them raises. *)
Lemma loop_run (fuel : nat) (s : state) :
  loop W fuel s = forever (invoke_all W (loop_calls W fuel (clock s))) s.
Proof.
  revert s. induction fuel as [| fuel IH]; intro s.
  - reflexivity.
  - cbn [loop loop_calls]. unfold forever. rewrite invoke_all_app.
    unfold bind. rewrite loop_body_calls.
    rewrite (invoke_all_run (iteration_calls W (clock s)) s).
    destruct (first_fault W (clock s) (List.length (iteration_calls W (clock s))))
      as [[j e] |]; [reflexivity |].
    rewrite IH. reflexivity.
Qed.

End Runs.

(** ** Messages of an event and of a batch *)

Lemma sent_app (t1 t2 : list call) : sent (t1 ++ t2) = sent t1 ++ sent t2.
Proof.
  induction t1 as [| c t1 IH]; [reflexivity |].
  destruct c; cbn; rewrite ?IH; reflexivity.
Qed.

Lemma sent_batch (events : list midi_event) :
  sent (batch_calls events) = flat_map event_messages events.
Proof.
  induction events as [| ev events IH]; [reflexivity |].
  cbn [batch_calls flat_map]. rewrite sent_app. fold (batch_calls events).
  rewrite IH. reflexivity.
Qed.

Lemma event_messages_eq (event : midi_event) :
  event_messages event = raw_message event :: sent (dispatch (decode_event event)).
Proof. reflexivity. Qed.

Lemma semantic_not_raw (e : semantic_event) :
  filter (addressed "/midi") (sent (dispatch e)) = [].
Proof. destruct e; reflexivity. Qed.

Lemma count_app (p : call -> bool) (t1 t2 : list call) :
  count p (t1 ++ t2) = (count p t1 + count p t2)%nat.
Proof. unfold count. rewrite filter_app, length_app. reflexivity. Qed.

Lemma event_calls_no_sleep (event : midi_event) :
  count is_sleep (event_calls event) = O.
Proof.
  unfold event_calls. destruct (decode_event event); reflexivity.
Qed.

Lemma batch_calls_no_sleep (events : list midi_event) :
  count is_sleep (batch_calls events) = O.
Proof.
  induction events as [| ev events IH]; [reflexivity |].
  cbn [batch_calls flat_map]. rewrite count_app, event_calls_no_sleep. exact IH.
Qed.

Lemma scripted_quiet (events : list midi_event) (from len : nat) :
  quiet (scripted events None) from len.
Proof. intros j _. reflexivity. Qed.

(** C2: a raw datum that is processed gets exactly one message [/midi]
    with [status, data1, data2] as they were read, and it is sent before
    the message of the arm taken, if there is one. *)
Theorem raw_message_once_and_first (W : world) (s : state) (event : midi_event) :
  quiet W (clock s) (List.length (event_calls event)) ->
  exists s' semantic,
    process_event W event s = (Ok tt, s') /\
    sent (trace s') =
      sent (trace s)
        ++ ("/midi", [ev_status event; ev_data1 event; ev_data2 event]) :: semantic /\
    semantic = sent (dispatch (decode_event event)) /\
    filter (addressed "/midi") semantic = [].
Proof.
  intro Q. eexists; exists (sent (dispatch (decode_event event))).
  rewrite process_event_calls, invoke_all_quiet by exact Q.
  split; [reflexivity |]. cbn [trace]. rewrite sent_app.
  repeat split. apply semantic_not_raw.
Qed.

Lemma raw_message_once_and_first_witness :
  exists s' semantic,
    process_event (scripted [] None) note_on_60 initial = (Ok tt, s') /\
    sent (trace s') = sent (trace initial) ++ ("/midi", [144; 60; 100]) :: semantic /\
    semantic = sent (dispatch (decode_event note_on_60)) /\
    filter (addressed "/midi") semantic = [].
Proof.
  apply (raw_message_once_and_first (scripted [] None) initial note_on_60).
  apply scripted_quiet.
Defined.

(** C3: when the status nibble is 0xE0 the message [/pitch_bend] carries
    [(data2 << 7) | data1]; for data bytes within 0..127 that value is
    within 0..16383, and data1 = 0x00, data2 = 0x40 give 8192. *)
Theorem pitch_bend_message (W : world) (s : state) (event : midi_event) :
  status_nibble (ev_status event) = 0xE0 ->
  quiet W (clock s) 4 ->
  (exists s',
     process_event W event s = (Ok tt, s') /\
     sent (trace s') =
       sent (trace s)
         ++ [raw_message event;
             ("/pitch_bend", [Z.lor (Z.shiftl (ev_data2 event) 7) (ev_data1 event)])]) /\
  (0 <= ev_data1 event <= 127 -> 0 <= ev_data2 event <= 127 ->
     0 <= Z.lor (Z.shiftl (ev_data2 event) 7) (ev_data1 event) <= 16383) /\
  (ev_data1 event = 0x00 -> ev_data2 event = 0x40 ->
     Z.lor (Z.shiftl (ev_data2 event) 7) (ev_data1 event) = 8192).
Proof.
  intros N Q. split; [| split].
  - assert (D : decode_event event
                = PitchBend (pitch_bend_value (ev_data1 event) (ev_data2 event))).
    { unfold decode_event. rewrite nibble_cases. nibble_tests; reflexivity. }
    assert (L : List.length (event_calls event) = 4%nat).
    { unfold event_calls. rewrite D. reflexivity. }
    eexists. rewrite process_event_calls, invoke_all_quiet by (rewrite L; exact Q).
    split; [reflexivity |]. cbn [trace]. rewrite sent_app.
    unfold event_calls. rewrite D. reflexivity.
  - intros [L1 H1] [L2 H2].
    assert (S7 : Z.shiftl (ev_data2 event) 7 = ev_data2 event * 128).
    { rewrite Z.shiftl_mul_pow2 by lia. reflexivity. }
    split.
    + apply Z.lor_nonneg. split; [rewrite S7 |]; lia.
    + set (v := Z.lor (Z.shiftl (ev_data2 event) 7) (ev_data1 event)).
      assert (V0 : 0 <= v) by (apply Z.lor_nonneg; split; [rewrite S7 |]; lia).
      destruct (Z.eq_dec v 0) as [-> | NZ]; [lia |].
      assert (v < 2 ^ 14); [| lia].
      apply Z.log2_lt_pow2; [lia |].
      unfold v. rewrite Z.log2_lor by (rewrite ?S7; lia).
      apply Z.max_lub_lt.
      * destruct (Z.eq_dec (ev_data2 event) 0) as [E0 | E0].
        { rewrite E0. cbn. lia. }
        apply Z.log2_lt_pow2; rewrite S7; lia.
      * destruct (Z.eq_dec (ev_data1 event) 0) as [E0 | E0].
        { rewrite E0. cbn. lia. }
        apply Z.log2_lt_pow2; lia.
  - intros -> ->. reflexivity.
Qed.

Lemma pitch_bend_message_witness :
  (exists s',
     process_event (scripted [] None) bend_center initial = (Ok tt, s') /\
     sent (trace s') =
       sent (trace initial) ++ [raw_message bend_center; ("/pitch_bend", [8192])]) /\
  0 <= Z.lor (Z.shiftl 0x40 7) 0x00 <= 16383.
Proof.
  destruct (pitch_bend_message (scripted [] None) initial bend_center eq_refl
              (scripted_quiet [] 0 4)) as [Run [Range _]].
  split; [exact Run |].
  apply Range; cbn; lia.
Defined.

(** C4: when the status nibble is none of 0x80, 0x90, 0xB0, 0xE0 the
    datum decodes to Unrecognized and the only message sent for it is
    the raw [/midi] one. *)
Theorem unrecognized_only_raw (W : world) (s : state) (event : midi_event) :
  status_nibble (ev_status event) <> 0x80 ->
  status_nibble (ev_status event) <> 0x90 ->
  status_nibble (ev_status event) <> 0xB0 ->
  status_nibble (ev_status event) <> 0xE0 ->
  quiet W (clock s) 2 ->
  decode_event event = Unrecognized /\
  exists s',
    process_event W event s = (Ok tt, s') /\
    trace s' = trace s ++ raw_calls event /\
    sent (trace s') = sent (trace s) ++ [raw_message event].
Proof.
  intros N1 N2 N3 N4 Q.
  assert (D : decode_event event = Unrecognized).
  { unfold decode_event. rewrite nibble_cases. nibble_tests; reflexivity. }
  split; [exact D |].
  assert (C : event_calls event = raw_calls event).
  { unfold event_calls. rewrite D. apply app_nil_r. }
  eexists. rewrite process_event_calls, C, invoke_all_quiet by exact Q.
  split; [reflexivity |]. cbn [trace]. split; [reflexivity |].
  rewrite sent_app. reflexivity.
Qed.

Lemma unrecognized_only_raw_witness :
  decode_event program_change = Unrecognized /\
  exists s',
    process_event (scripted [] None) program_change initial = (Ok tt, s') /\
    trace s' = trace initial ++ raw_calls program_change /\
    sent (trace s') = sent (trace initial) ++ [("/midi", [192; 5; 0])].
Proof.
  apply (unrecognized_only_raw (scripted [] None) initial program_change);
    try (cbn; discriminate).
  apply scripted_quiet.
Defined.

Lemma raw_messages_of_batch (events : list midi_event) :
  filter (addressed "/midi") (flat_map event_messages events) = map raw_message events.
Proof.
  induction events as [| ev events IH]; [reflexivity |].
  cbn [flat_map map]. rewrite filter_app, IH, event_messages_eq.
  cbn [filter]. unfold addressed at 1. cbn [fst raw_message].
  rewrite String.eqb_refl, semantic_not_raw. reflexivity.
Qed.

(** C5: the messages of a batch read in one poll are the messages of its
    first datum, then those of the second, and so on: input order is
    kept, and every datum keeps its own raw message. *)
Theorem batch_order_kept (W : world) (s : state) :
  poll_answer W (clock s) = true ->
  quiet W (clock s) (List.length (iteration_calls W (clock s))) ->
  exists s',
    loop_body W s = (Ok tt, s') /\
    sent (trace s') =
      sent (trace s) ++ flat_map event_messages (read_answer W (S (clock s))) /\
    filter (addressed "/midi") (flat_map event_messages (read_answer W (S (clock s))))
      = map raw_message (read_answer W (S (clock s))).
Proof.
  intros P Q. eexists.
  rewrite loop_body_calls, invoke_all_quiet by exact Q.
  split; [reflexivity |]. cbn [trace]. split.
  - unfold iteration_calls. rewrite P, sent_app. cbn [sent].
    rewrite sent_app, sent_batch. cbn [sent]. rewrite app_nil_r. reflexivity.
  - apply raw_messages_of_batch.
Qed.

Lemma batch_order_kept_witness :
  exists s',
    loop_body (scripted [note_on_60; note_on_60_zero] None) initial = (Ok tt, s') /\
    sent (trace s') =
      sent (trace initial)
        ++ flat_map event_messages [note_on_60; note_on_60_zero] /\
    filter (addressed "/midi") (flat_map event_messages [note_on_60; note_on_60_zero])
      = map raw_message [note_on_60; note_on_60_zero].
Proof.
  apply (batch_order_kept (scripted [note_on_60; note_on_60_zero] None) initial).
  - reflexivity.
  - apply scripted_quiet.
Defined.

(** C9, as the specification states it, fails: an iteration that read
    and dispatched an event sleeps all the same. *)
Lemma sleep_after_processing :
  poll_answer (scripted [note_on_60] None) (clock initial) = true /\
  loop_body (scripted [note_on_60] None) initial =
    (Ok tt,
     {| clock := 7;
        trace := [input_poll; input_read 10;
                  send_message "/midi" [144; 60; 100];
                  logger INFO "/midi {status} {note} {velocity}" [VInt 144; VInt 60; VInt 100];
                  send_message "/note_on" [60; 100];
                  logger INFO "/note_on {note} {velocity}" [VInt 60; VInt 100];
                  time_sleep_ms 10] |}) /\
  count is_sleep (trace (snd (loop_body (scripted [note_on_60] None) initial))) = 1%nat.
Proof. repeat split. Qed.

(** C9, amended: an iteration polls; if events are pending it reads a
    batch of at most 10 and processes each event in order; then, pending
    events or not, it sleeps 10 ms, once, as its last call. *)
Theorem sleep_every_iteration (W : world) (s : state) :
  quiet W (clock s) (List.length (iteration_calls W (clock s))) ->
  exists s' work,
    loop_body W s = (Ok tt, s') /\
    trace s' = trace s ++ work ++ [time_sleep_ms 10] /\
    work =
      (if poll_answer W (clock s)
       then input_poll :: input_read 10 :: batch_calls (read_answer W (S (clock s)))
       else [input_poll]) /\
    count is_sleep work = O.
Proof.
  intro Q. eexists.
  exists (if poll_answer W (clock s)
          then input_poll :: input_read 10 :: batch_calls (read_answer W (S (clock s)))
          else [input_poll]).
  rewrite loop_body_calls, invoke_all_quiet by exact Q.
  split; [reflexivity |]. cbn [trace]. unfold iteration_calls.
  destruct (poll_answer W (clock s)).
  - repeat split.
    change (count is_sleep (batch_calls (read_answer W (S (clock s)))) = O).
    apply batch_calls_no_sleep.
  - repeat split.
Qed.

Lemma sleep_every_iteration_witness :
  exists s' work,
    loop_body (scripted [note_on_60] None) initial = (Ok tt, s') /\
    trace s' = trace initial ++ work ++ [time_sleep_ms 10] /\
    work =
      (if poll_answer (scripted [note_on_60] None) (clock initial)
       then input_poll :: input_read 10
              :: batch_calls (read_answer (scripted [note_on_60] None) (S (clock initial)))
       else [input_poll]) /\
    count is_sleep work = O.
Proof.
  apply (sleep_every_iteration (scripted [note_on_60] None) initial).
  apply scripted_quiet.
Defined.

(** ** Programs that make only calls of one kind *)

Section Only.

Variable W : world.
Variable P : call -> bool.

Lemma only_ret {A} (a : A) : only P (ret a).
Proof.
  intros s r s' E. inversion E; subst. exists []. rewrite app_nil_r. auto.
Qed.

Lemma only_raise {A} (e : exn) : only P (@raise A e).
Proof.
  intros s r s' E. inversion E; subst. exists []. rewrite app_nil_r. auto.
Qed.

Lemma only_perform {A} (c : call) (a : A) : P c = true -> only P (perform W c a).
Proof.
  intros Pc s r s' E. unfold perform in E.
  destruct (faults W (clock s)); inversion E; subst; cbn [trace].
  - exists []. rewrite app_nil_r. auto.
  - exists [c]. cbn. rewrite Pc. auto.
Qed.

Lemma only_poll : P input_poll = true -> only P (poll W).
Proof. intros Pc s r s' E. exact (only_perform _ _ Pc s r s' E). Qed.

Lemma only_read (n : Z) : P (input_read n) = true -> only P (read W n).
Proof. intros Pc s r s' E. exact (only_perform _ _ Pc s r s' E). Qed.

Lemma only_bind {A B} (m : M A) (f : A -> M B) :
  only P m -> (forall a, only P (f a)) -> only P (bind m f).
Proof.
  intros Hm Hf s r s' E. unfold bind in E.
  destruct (m s) as [[a | e |] s1] eqn:Em.
  - destruct (Hm _ _ _ Em) as [d1 [T1 F1]].
    destruct (Hf a _ _ _ E) as [d2 [T2 F2]].
    exists (d1 ++ d2). rewrite T2, T1, app_assoc, forallb_app, F1, F2. auto.
  - inversion E; subst. exact (Hm _ _ _ Em).
  - inversion E; subst. exact (Hm _ _ _ Em).
Qed.

Lemma only_for_each {A} (xs : list A) (body : A -> M unit) :
  (forall x, only P (body x)) -> only P (for_each xs body).
Proof.
  intro Hb. induction xs as [| x xs IH].
  - apply only_ret.
  - cbn [for_each]. apply only_bind; [apply Hb | intros _; exact IH].
Qed.

Lemma only_try_except (body handler : M unit) :
  only P body -> only P handler -> only P (try_except_KeyboardInterrupt body handler).
Proof.
  intros Hb Hh s r s' E. unfold try_except_KeyboardInterrupt in E.
  destruct (body s) as [[a | e |] s1] eqn:Eb.
  - inversion E; subst. exact (Hb _ _ _ Eb).
  - destruct (Hb _ _ _ Eb) as [d1 [T1 F1]].
    destruct (is_keyboard_interrupt e).
    + destruct (Hh _ _ _ E) as [d2 [T2 F2]].
      exists (d1 ++ d2). rewrite T2, T1, app_assoc, forallb_app, F1, F2. auto.
    + inversion E; subst. exists d1. auto.
  - inversion E; subst. exact (Hb _ _ _ Eb).
Qed.

Lemma only_try_finally (body final : M unit) :
  only P body -> only P final -> only P (try_finally body final).
Proof.
  intros Hb Hf s r s' E. unfold try_finally in E.
  destruct (body s) as [[a | e |] s1] eqn:Eb.
  - destruct (Hb _ _ _ Eb) as [d1 [T1 F1]].
    destruct (Hf _ _ _ E) as [d2 [T2 F2]].
    exists (d1 ++ d2). rewrite T2, T1, app_assoc, forallb_app, F1, F2. auto.
  - destruct (Hb _ _ _ Eb) as [d1 [T1 F1]].
    destruct (final s1) as [[a | e' |] s2] eqn:Ef;
      destruct (Hf _ _ _ Ef) as [d2 [T2 F2]];
      inversion E; subst;
      exists (d1 ++ d2); rewrite T2, T1, app_assoc, forallb_app, F1, F2; auto.
  - inversion E; subst. exact (Hb _ _ _ Eb).
Qed.

Lemma only_loop (fuel : nat) :
  only P (loop_body W) -> only P (loop W fuel).
Proof.
  intro Hb. induction fuel as [| fuel IH].
  - intros s r s' E. inversion E; subst. exists []. rewrite app_nil_r. auto.
  - cbn [loop]. apply only_bind; [exact Hb | intros _; exact IH].
Qed.

End Only.

Ltac only_step :=
  match goal with
  | |- only _ (bind _ _) => apply only_bind; [| intro]
  | |- only _ (ret _) => apply only_ret
  | |- only _ (raise _) => apply only_raise
  | |- only _ (sys_exit _) => apply only_raise
  | |- only _ (bytes_decode _) => unfold bytes_decode
  | |- only _ (perform _ _ _) => apply only_perform; reflexivity
  | |- only _ (invoke _ _) => apply only_perform; reflexivity
  | |- only _ (logger_info _ _ _) => apply only_perform; reflexivity
  | |- only _ (logger_error _ _ _) => apply only_perform; reflexivity
  | |- only _ (poll _) => apply only_poll; reflexivity
  | |- only _ (read _ _) => apply only_read; reflexivity
  | |- only _ (for_each _ _) => apply only_for_each; intro
  | |- only _ (if ?b then _ else _) => destruct b
  | |- only _ (match ?o with Some _ => _ | None => _ end) => destruct o
  end.

Lemma process_event_only (W : world) (P : call -> bool) (event : midi_event) :
  (forall address args, P (send_message address args) = true) ->
  (forall template vals,
     is_print_handler_log (logger INFO template vals) = false ->
     P (logger INFO template vals) = true) ->
  only P (process_event W event).
Proof.
  intros Ps Pl. unfold process_event.
  repeat first
    [ apply only_perform; first [apply Ps | apply Pl; reflexivity]
    | only_step ].
Qed.

Lemma loop_body_only (W : world) (P : call -> bool) :
  P input_poll = true -> P (input_read 10) = true -> P (time_sleep_ms 10) = true ->
  (forall address args, P (send_message address args) = true) ->
  (forall template vals,
     is_print_handler_log (logger INFO template vals) = false ->
     P (logger INFO template vals) = true) ->
  only P (loop_body W).
Proof.
  intros Pp Pr Pz Ps Pl. unfold loop_body.
  apply only_bind; [apply only_poll; exact Pp | intros pending].
  apply only_bind; [| intros _; apply only_perform; exact Pz].
  destruct pending; [| apply only_ret].
  apply only_bind; [apply only_read; exact Pr | intros events].
  apply only_for_each. intro event. apply process_event_only; assumption.
Qed.

Lemma startup_only (W : world) (P : call -> bool) (args : arguments) :
  P midi_init = true -> P midi_quit = true -> P midi_get_count = true ->
  (forall i, P (midi_get_device_info i) = true) ->
  P midi_get_default_input_id = true ->
  P (disp_map "/print" "print_handler") = true ->
  (forall i, P (midi_Input i) = true) ->
  (forall a p, P (SimpleUDPClient a p) = true) ->
  (forall lvl template vals,
     is_print_handler_log (logger lvl template vals) = false ->
     P (logger lvl template vals) = true) ->
  only P (startup W args).
Proof.
  intros P1 P2 P3 P4 P5 P6 P7 P8 P9.
  unfold startup, list_mode, select_input, list_device.
  repeat first
    [ apply only_perform;
      first [ exact P1 | exact P2 | exact P3 | apply P4 | exact P5 | exact P6
            | apply P7 | apply P8 | apply P9; reflexivity ]
    | only_step ].
Qed.

Lemma forallb_not_close (d : list call) :
  forallb not_close d = true -> count is_close d = O.
Proof.
  induction d as [| c d IH]; [reflexivity |].
  cbn [forallb]. intro F. apply andb_prop in F as [Fc Fd].
  unfold count in *. cbn [filter]. unfold not_close in Fc.
  destruct (is_close c); [discriminate | auto].
Qed.

Lemma forallb_firstn {A} (p : A -> bool) (n : nat) (l : list A) :
  forallb p l = true -> forallb p (firstn n l) = true.
Proof.
  revert n. induction l as [| x l IH]; intros [| n] F; cbn in *; auto.
  apply andb_prop in F as [Fx Fl]. rewrite Fx, (IH n Fl). reflexivity.
Qed.

Lemma forallb_In_false {A} (p : A -> bool) (l : list A) (x : A) :
  forallb p l = true -> p x = false -> ~ In x l.
Proof.
  intros F Px I. rewrite forallb_forall in F. rewrite (F x I) in Px. discriminate.
Qed.

(** ** The [try] statement *)

Section Serve.

Variable W : world.

Lemma on_exit_run (s : state) :
  quiet W (clock s) 3 ->
  on_exit W s = (Ok tt, {| clock := clock s + 3; trace := trace s ++ closing |}).
Proof.
  intro Q.
  assert (E : on_exit W s = invoke_all W closing s).
  { unfold on_exit, closing, logger_info. cbn [invoke_all for_each].
    apply bind_ext; [reflexivity | intros _ s1].
    apply bind_ext; [reflexivity | intros _ s2].
    symmetry. apply bind_ret_unit. }
  rewrite E. apply invoke_all_quiet. exact Q.
Qed.

Lemma on_interrupt_run (s : state) :
  quiet W (clock s) 1 ->
  on_interrupt W s =
    (Ok tt, {| clock := clock s + 1;
               trace := trace s ++ [logger INFO "Shutting down server." []] |}).
Proof.
  intro Q. unfold on_interrupt, logger_info, invoke, perform.
  rewrite <- (Nat.add_0_r (clock s)) at 1. rewrite (Q O) by lia.
  rewrite Nat.add_1_r. reflexivity.
Qed.

Lemma loop_calls_only (P : call -> bool) (fuel c : nat) :
  P input_poll = true -> P (input_read 10) = true -> P (time_sleep_ms 10) = true ->
  (forall address args, P (send_message address args) = true) ->
  (forall template vals,
     is_print_handler_log (logger INFO template vals) = false ->
     P (logger INFO template vals) = true) ->
  forallb P (loop_calls W fuel c) = true.
Proof.
  intros Pp Pr Pz Ps Pl. revert c. induction fuel as [| fuel IH]; intro c.
  - reflexivity.
  - cbn [loop_calls]. rewrite forallb_app, IH, andb_true_r.
    unfold iteration_calls. destruct (poll_answer W c); cbn [forallb].
    + rewrite Pp, Pr, forallb_app. cbn [forallb]. rewrite Pz. cbn [andb].
      rewrite andb_true_r.
      induction (read_answer W (S c)) as [| ev evs IHe]; [reflexivity |].
      cbn [batch_calls flat_map]. rewrite forallb_app. fold (batch_calls evs).
      rewrite IHe, andb_true_r.
      unfold event_calls, raw_calls. cbn [app forallb].
      rewrite Ps, Pl by reflexivity. cbn [andb].
      destruct (decode_event ev); cbn [dispatch forallb];
        rewrite ?Ps, ?Pl by reflexivity; reflexivity.
    + rewrite Pp, Pz. reflexivity.
Qed.

Lemma completed_no_close (fuel : nat) (s : state) (k : nat) :
  count is_close (completed W fuel s k) = O.
Proof.
  apply forallb_not_close. apply forallb_firstn.
  apply loop_calls_only; reflexivity.
Qed.

(** The loop when call number [k] raises [e] and no call before it does. *)
Lemma loop_fault (fuel : nat) (s : state) (k : nat) (e : exn) :
  (clock s <= k < clock s + 2 * fuel)%nat ->
  faults W k = Some e ->
  (forall j, j <> k -> faults W j = None) ->
  loop W fuel s =
    (Raise e, {| clock := S k; trace := trace s ++ completed W fuel s k |}).
Proof.
  intros [Lo Hi] F Q.
  rewrite loop_run. unfold forever. rewrite invoke_all_run.
  rewrite (first_fault_at W (clock s) _ (k - clock s) e).
  - unfold completed. do 2 f_equal. lia.
  - pose proof (loop_calls_length W fuel (clock s)). lia.
  - intros j Hj. apply Q. lia.
  - replace (clock s + (k - clock s))%nat with k by lia. exact F.
Qed.

(** The [try] statement when call number [k], a call of the loop, raises
    [e] and no other call raises: a [KeyboardInterrupt] is caught and
    logged, any other exception goes on after the [finally] block. *)
Lemma serve_fault (fuel : nat) (s : state) (k : nat) (e : exn) :
  (clock s <= k < clock s + 2 * fuel)%nat ->
  faults W k = Some e ->
  (forall j, j <> k -> faults W j = None) ->
  serve W fuel s =
    if is_keyboard_interrupt e then
      (Ok tt,
       {| clock := k + 5;
          trace := trace s ++ completed W fuel s k
                     ++ logger INFO "Shutting down server." [] :: closing |})
    else
      (Raise e,
       {| clock := k + 4; trace := trace s ++ completed W fuel s k ++ closing |}).
Proof.
  intros B F Q. unfold serve, try_finally, try_except_KeyboardInterrupt.
  rewrite (loop_fault fuel s k e B F Q).
  destruct (is_keyboard_interrupt e).
  - rewrite on_interrupt_run by (intros j _; apply Q; cbn; lia).
    rewrite on_exit_run by (intros j _; apply Q; cbn; lia).
    cbn [clock trace]. do 2 f_equal; [lia |].
    rewrite <- !app_assoc. reflexivity.
  - rewrite on_exit_run by (intros j _; apply Q; cbn; lia).
    cbn [clock trace]. do 2 f_equal; [lia |].
    rewrite <- !app_assoc. reflexivity.
Qed.

Lemma main_after_startup (args : arguments) (fuel : nat) (s s0 : state) :
  startup W args s = (Ok tt, s0) ->
  main W args fuel s = serve W fuel s0.
Proof. intro E. unfold main, bind. rewrite E. reflexivity. Qed.

Lemma startup_no_close (args : arguments) (s : state) (r : result unit) (s' : state) :
  startup W args s = (r, s') ->
  count is_close (trace s') = count is_close (trace s).
Proof.
  intro E.
  assert (O : only not_close (startup W args))
    by (apply startup_only; intros; reflexivity).
  destruct (O _ _ _ E) as [d [T F]].
  rewrite T, count_app, (forallb_not_close d F). lia.
Qed.

End Serve.

(** ** Runs of [main] *)

Lemma scripted_single_fault (events : list midi_event) (k : nat) (e : exn) :
  forall j, j <> k -> faults (scripted events (Some (k, e))) j = None.
Proof.
  intros j N. cbn. destruct (Nat.eqb_spec j k); [contradiction | reflexivity].
Qed.

(** C6, as the specification states it, fails: the send of [/midi]
    (call number 7) raises, the run ends there with that exception, the
    device is closed, and no log call tells of the failure. *)
Lemma send_failure_ends_run :
  main (scripted [note_on_60] (Some (7%nat, OSError))) (explicit_device 0) 3 initial =
    (Raise OSError,
     {| clock := 11;
        trace := [midi_init; disp_map "/print" "print_handler"; midi_Input 0;
                  logger INFO "Using MIDI input device ID {input_id}" [VInt 0];
                  SimpleUDPClient "localhost" 9000;
                  input_poll; input_read 10;
                  input_close; midi_quit; logger INFO "Server closed." []] |}).
Proof. reflexivity. Qed.

(** C6, amended: nothing catches a send failure. When a [send_message]
    of the loop raises an exception (other than KeyboardInterrupt) the
    loop ends at that call; the [finally] block closes the device, quits
    MIDI and logs "Server closed."; nothing else is logged or sent; and
    the exception leaves [main]. *)
Theorem send_failure_leaves_main
    (W : world) (args : arguments) (fuel : nat) (s0 : state)
    (k : nat) (e : exn) (address : string) (margs : list Z) :
  startup W args initial = (Ok tt, s0) ->
  (clock s0 <= k < clock s0 + 2 * fuel)%nat ->
  nth_error (loop_calls W fuel (clock s0)) (k - clock s0)
    = Some (send_message address margs) ->
  faults W k = Some e ->
  is_keyboard_interrupt e = false ->
  (forall j, j <> k -> faults W j = None) ->
  main W args fuel initial =
    (Raise e,
     {| clock := k + 4; trace := trace s0 ++ completed W fuel s0 k ++ closing |}) /\
  count is_close (trace s0 ++ completed W fuel s0 k ++ closing) = 1%nat /\
  count is_error_log (completed W fuel s0 k ++ closing) = O.
Proof.
  intros St B _ F NK Q.
  rewrite (main_after_startup W args fuel initial s0 St).
  rewrite (serve_fault W fuel s0 k e B F Q), NK.
  split; [reflexivity |]. split.
  - rewrite !count_app, completed_no_close.
    rewrite (startup_no_close W args initial (Ok tt) s0 St). reflexivity.
  - rewrite count_app. cbn [closing]. rewrite Nat.add_0_r.
    unfold completed, count.
    assert (E : forallb (fun c => negb (is_error_log c))
                  (firstn (k - clock s0) (loop_calls W fuel (clock s0))) = true).
    { apply forallb_firstn. apply loop_calls_only; reflexivity. }
    induction (firstn (k - clock s0) (loop_calls W fuel (clock s0))) as [| c l IH];
      [reflexivity |].
    cbn [forallb] in E. apply andb_prop in E as [Ec El].
    cbn [filter]. destruct (is_error_log c); [discriminate | auto].
Qed.

Lemma send_failure_leaves_main_witness :
  main (scripted [note_on_60] (Some (7%nat, OSError))) (explicit_device 0) 3 initial =
    (Raise OSError,
     {| clock := 7 + 4;
        trace :=
          trace {| clock := 5;
                   trace := [midi_init; disp_map "/print" "print_handler"; midi_Input 0;
                             logger INFO "Using MIDI input device ID {input_id}" [VInt 0];
                             SimpleUDPClient "localhost" 9000] |}
            ++ completed (scripted [note_on_60] (Some (7%nat, OSError))) 3
                 {| clock := 5;
                    trace := [midi_init; disp_map "/print" "print_handler"; midi_Input 0;
                              logger INFO "Using MIDI input device ID {input_id}" [VInt 0];
                              SimpleUDPClient "localhost" 9000] |} 7
            ++ closing |}).
Proof.
  refine (proj1 (send_failure_leaves_main
                   (scripted [note_on_60] (Some (7%nat, OSError))) (explicit_device 0) 3
                   _ 7 OSError "/midi" [144; 60; 100] _ _ _ _ _ _)).
  - reflexivity.
  - cbn. lia.
  - reflexivity.
  - reflexivity.
  - reflexivity.
  - apply scripted_single_fault.
Defined.

(** C7, as the specification states it, fails: with [--midi-device 7]
    and a device library that refuses the id, the run ends with the
    library's exception and the program has logged nothing. *)
Lemma open_failure_not_logged :
  main (scripted [] (Some (2%nat, MidiException))) (explicit_device 7) 3 initial =
    (Raise MidiException,
     {| clock := 3; trace := [midi_init; disp_map "/print" "print_handler"] |}) /\
  count is_error_log
    (trace (snd (main (scripted [] (Some (2%nat, MidiException)))
                   (explicit_device 7) 3 initial))) = O.
Proof. split; reflexivity. Qed.

(** C7, amended: when an explicit device id is given and opening it
    raises, nothing catches the exception: [main] ends there, before
    any session exists, without a log call by the program and without
    any message sent; the interpreter exits with status 1, as for any
    exception nobody caught. *)
Theorem open_failure_leaves_main
    (W : world) (args : arguments) (fuel : nat) (d : Z) :
  list_midi_devices args = false ->
  midi_device args = Some d ->
  faults W 0 = None ->
  faults W 1 = None ->
  faults W 2 = Some MidiException ->
  main W args fuel initial =
    (Raise MidiException,
     {| clock := 3; trace := [midi_init; disp_map "/print" "print_handler"] |}) /\
  exit_status (fst (main W args fuel initial)) = Some 1.
Proof.
  intros L D F0 F1 F2.
  assert (E : main W args fuel initial =
                (Raise MidiException,
                 {| clock := 3; trace := [midi_init; disp_map "/print" "print_handler"] |})).
  { unfold main, startup, select_input, invoke, logger_info, perform, bind, ret, initial.
    rewrite L, D. cbn [clock trace]. rewrite F0. cbn [clock trace]. rewrite F1.
    cbn [clock trace]. rewrite F2. reflexivity. }
  rewrite E. split; reflexivity.
Qed.

Lemma open_failure_leaves_main_witness :
  main (scripted [] (Some (2%nat, MidiException))) (explicit_device 7) 1 initial =
    (Raise MidiException,
     {| clock := 3; trace := [midi_init; disp_map "/print" "print_handler"] |}) /\
  exit_status (fst (main (scripted [] (Some (2%nat, MidiException)))
                      (explicit_device 7) 1 initial)) = Some 1.
Proof.
  apply (open_failure_leaves_main
           (scripted [] (Some (2%nat, MidiException))) (explicit_device 7) 1 7);
    reflexivity.
Defined.




Lemma main_only_not_print_handler (W : world) (args : arguments) (fuel : nat) :
  only not_print_handler_log (main W args fuel).
Proof.
  unfold main. apply only_bind.
  - apply startup_only; try reflexivity; intros; try reflexivity.
    unfold not_print_handler_log.
    match goal with H : _ = false |- _ => rewrite H end. reflexivity.
  - intros _. unfold serve.
    apply only_try_finally; [apply only_try_except |].
    + apply only_loop. apply loop_body_only; try reflexivity; intros; try reflexivity.
      unfold not_print_handler_log.
      match goal with H : _ = false |- _ => rewrite H end. reflexivity.
    + unfold on_interrupt. only_step.
    + unfold on_exit. repeat only_step.
Qed.

(** What a call of [print_handler] leaves in the trace. *)
Lemma print_handler_logs (W : world) (address : string) (hargs : list Z) (s : state) :
  faults W (clock s) = None ->
  exists c,
    is_print_handler_log c = true /\
    print_handler W address hargs s =
      (Ok tt, {| clock := S (clock s); trace := trace s ++ [c] |}).
Proof.
  intro F. eexists. split; [| unfold print_handler, logger_info, invoke, perform;
                              rewrite F; reflexivity].
  reflexivity.
Qed.

(** C10: two runs in the same world whose command lines differ only in
    [--ip] and [--port] make the same calls and end the same way, so
    they send the same OSC messages; and no run makes the log call of
    [print_handler]: the handler is registered with [disp.map] and never
    called. *)
Theorem listen_flags_unused
    (W : world) (args : arguments) (fuel : nat) (ip' : string) (port' : Z) :
  main W (with_listen args ip' port') fuel initial = main W args fuel initial /\
  sent (trace (snd (main W (with_listen args ip' port') fuel initial)))
    = sent (trace (snd (main W args fuel initial))) /\
  forallb not_print_handler_log (trace (snd (main W args fuel initial))) = true /\
  (forall address hargs,
     ~ In (logger INFO "Received message at {address}: {args}"
             [VStr address; VInts hargs])
          (trace (snd (main W args fuel initial)))).
Proof.
  assert (E : main W (with_listen args ip' port') fuel initial = main W args fuel initial)
    by reflexivity.
  assert (F : forallb not_print_handler_log (trace (snd (main W args fuel initial))) = true).
  { destruct (main W args fuel initial) as [r s'] eqn:R.
    destruct (main_only_not_print_handler W args fuel _ _ _ R) as [d [T Fd]].
    cbn [snd]. rewrite T. exact Fd. }
  split; [exact E |]. split; [rewrite E; reflexivity |]. split; [exact F |].
  intros address hargs. apply (forallb_In_false _ _ _ F). reflexivity.
Qed.

(** ** More on the decoder and on the messages of an event *)

Lemma low_high_disjoint (lo hi : Z) :
  0 <= lo < 128 -> Z.land (Z.shiftl hi 7) lo = 0.
Proof.
  intros [L H]. apply Z.bits_inj'. intros n Hn.
  rewrite Z.land_spec, Z.bits_0.
  destruct (Z.lt_ge_cases n 7) as [Lt | Ge].
  - rewrite Z.shiftl_spec_low by exact Lt. reflexivity.
  - assert (T : Z.testbit lo n = false).
    { destruct (Z.eq_dec lo 0) as [-> | NZ]; [apply Z.bits_0 |].
      apply Z.bits_above_log2; [exact L |].
      apply Z.lt_le_trans with 7; [| exact Ge].
      apply Z.log2_lt_pow2; lia. }
    rewrite T. apply andb_false_r.
Qed.

Lemma pitch_bend_sum (note velocity : Z) :
  0 <= note < 128 -> pitch_bend_value note velocity = velocity * 128 + note.
Proof.
  intro B. unfold pitch_bend_value.
  rewrite <- Z.lxor_lor by (apply low_high_disjoint; exact B).
  rewrite <- Z.add_nocarry_lxor by (apply low_high_disjoint; exact B).
  rewrite Z.shiftl_mul_pow2 by lia. reflexivity.
Qed.

(** X1: the pitch bend value keeps both data bytes when data1 is a 7-bit
    byte: data1 is its low 7 bits and data2 is the value shifted right
    by 7, so two data pairs with 7-bit data1 that give the same value
    are the same pair. *)
Theorem pitch_bend_round_trip (note velocity note' velocity' : Z) :
  0 <= note <= 127 ->
  0 <= note' <= 127 ->
  Z.land (pitch_bend_value note velocity) 0x7F = note /\
  Z.shiftr (pitch_bend_value note velocity) 7 = velocity /\
  (pitch_bend_value note velocity = pitch_bend_value note' velocity' ->
     note = note' /\ velocity = velocity').
Proof.
  intros B B'.
  assert (R : forall n v, 0 <= n <= 127 ->
                Z.land (pitch_bend_value n v) 0x7F = n /\
                Z.shiftr (pitch_bend_value n v) 7 = v).
  { intros n v Bn. rewrite pitch_bend_sum by lia. split.
    - change 127 with (Z.ones 7). rewrite Z.land_ones by lia.
      change (2 ^ 7) with 128. rewrite Z.add_comm, Z.mod_add by lia.
      apply Z.mod_small. lia.
    - rewrite Z.shiftr_div_pow2 by lia. change (2 ^ 7) with 128.
      rewrite Z.add_comm, Z.div_add by lia. rewrite Z.div_small by lia.
      reflexivity. }
  destruct (R note velocity B) as [R1 R2].
  destruct (R note' velocity' B') as [R1' R2'].
  split; [exact R1 |]. split; [exact R2 |]. intro E. split.
  - rewrite <- R1, <- R1', E. reflexivity.
  - rewrite <- R2, <- R2', E. reflexivity.
Qed.

Lemma pitch_bend_round_trip_witness :
  Z.land (pitch_bend_value 0x00 0x40) 0x7F = 0x00 /\
  Z.shiftr (pitch_bend_value 0x00 0x40) 7 = 0x40.
Proof.
  assert (I : 0 <= 0x00 <= 127) by lia.
  destruct (pitch_bend_round_trip 0x00 0x40 0x00 0x40 I I) as [A [B _]].
  split; [exact A | exact B].
Defined.

Lemma channel_bits (channel : Z) : 0 <= channel <= 15 -> Z.land channel 0xF0 = 0.
Proof.
  intro B.
  assert (C : channel = 0 \/ channel = 1 \/ channel = 2 \/ channel = 3 \/
              channel = 4 \/ channel = 5 \/ channel = 6 \/ channel = 7 \/
              channel = 8 \/ channel = 9 \/ channel = 10 \/ channel = 11 \/
              channel = 12 \/ channel = 13 \/ channel = 14 \/ channel = 15) by lia.
  repeat (destruct C as [-> | C]; [reflexivity |]). subst. reflexivity.
Qed.

(** X2: the channel is ignored: putting any channel 0..15 into the low
    bits of a status byte changes neither the arm taken nor its message;
    only the raw [/midi] message still shows it. *)
Theorem channel_ignored (status channel data1 data2 : Z) :
  0 <= channel <= 15 ->
  decode (Z.lor status channel) data1 data2 = decode status data1 data2 /\
  sent (dispatch (decode (Z.lor status channel) data1 data2))
    = sent (dispatch (decode status data1 data2)).
Proof.
  intro B.
  assert (N : status_nibble (Z.lor status channel) = status_nibble status).
  { unfold status_nibble. rewrite Z.land_lor_distr_l, (channel_bits channel B).
    apply Z.lor_0_r. }
  assert (D : decode (Z.lor status channel) data1 data2 = decode status data1 data2).
  { rewrite !nibble_cases, N. reflexivity. }
  rewrite D. split; reflexivity.
Qed.

Lemma channel_ignored_witness :
  decode (Z.lor 0x90 9) 60 100 = decode 0x90 60 100 /\
  sent (dispatch (decode (Z.lor 0x90 9) 60 100)) = sent (dispatch (decode 0x90 60 100)).
Proof. apply (channel_ignored 0x90 9 60 100). lia. Defined.

Lemma dispatch_logged (e : semantic_event) : logged_sends (dispatch e).
Proof.
  destruct e; cbn [dispatch];
    try (apply (logged_pair _ [_; _]); [reflexivity | constructor]);
    try (apply (logged_pair _ [_]); [reflexivity | constructor]);
    constructor.
Qed.

Lemma logged_sends_app (t1 t2 : list call) :
  logged_sends t1 -> logged_sends t2 -> logged_sends (t1 ++ t2).
Proof.
  intros L1 L2. induction L1 as [| a m t rest Pf _ IH]; [exact L2 |].
  cbn [app]. constructor; assumption.
Qed.

Lemma event_calls_logged (event : midi_event) : logged_sends (event_calls event).
Proof.
  unfold event_calls, raw_calls.
  apply (logged_pair "/midi" [_; _; _]); [reflexivity |].
  apply dispatch_logged.
Qed.

Lemma batch_calls_logged (events : list midi_event) : logged_sends (batch_calls events).
Proof.
  induction events as [| ev events IH]; [constructor |].
  cbn [batch_calls flat_map]. apply logged_sends_app; [apply event_calls_logged | exact IH].
Qed.

Lemma event_messages_count (event : midi_event) :
  (1 <= List.length (event_messages event) <= 2)%nat.
Proof.
  rewrite event_messages_eq. destruct (decode_event event); cbn; lia.
Qed.

Lemma batch_messages_count (events : list midi_event) :
  (List.length events <= List.length (flat_map event_messages events)
     <= 2 * List.length events)%nat.
Proof.
  induction events as [| ev events IH]; [cbn; lia |].
  cbn [flat_map List.length]. rewrite length_app.
  pose proof (event_messages_count ev). lia.
Qed.

(** X3: an iteration that reads a batch of n events sends at least n and
    at most 2n messages, and what it calls between the read and the
    sleep is sends and log lines in pairs: each message is followed at
    once by an INFO line that starts with its address and carries its
    arguments. *)
Theorem batch_messages_logged (W : world) (s : state) :
  poll_answer W (clock s) = true ->
  quiet W (clock s) (List.length (iteration_calls W (clock s))) ->
  exists s' work messages,
    loop_body W s = (Ok tt, s') /\
    trace s' = trace s ++ input_poll :: input_read 10 :: work ++ [time_sleep_ms 10] /\
    logged_sends work /\
    sent (trace s') = sent (trace s) ++ messages /\
    (List.length (read_answer W (S (clock s))) <= List.length messages
       <= 2 * List.length (read_answer W (S (clock s))))%nat.
Proof.
  intros P Q. eexists.
  exists (batch_calls (read_answer W (S (clock s)))).
  exists (flat_map event_messages (read_answer W (S (clock s)))).
  rewrite loop_body_calls, invoke_all_quiet by exact Q.
  split; [reflexivity |]. cbn [trace]. unfold iteration_calls. rewrite P.
  split; [reflexivity |]. split; [apply batch_calls_logged |]. split.
  - rewrite sent_app. cbn [sent]. rewrite sent_app, sent_batch. cbn [sent].
    rewrite app_nil_r. reflexivity.
  - apply batch_messages_count.
Qed.

Lemma batch_messages_logged_witness :
  exists s' work messages,
    loop_body (scripted [note_on_60; program_change] None) initial = (Ok tt, s') /\
    trace s' = trace initial ++ input_poll :: input_read 10 :: work ++ [time_sleep_ms 10] /\
    logged_sends work /\
    sent (trace s') = sent (trace initial) ++ messages /\
    (2 <= List.length messages <= 2 * 2)%nat.
Proof.
  apply (batch_messages_logged (scripted [note_on_60; program_change] None) initial).
  - reflexivity.
  - apply scripted_quiet.
Defined.

(** ** Listing mode *)

Lemma bind_raise_absorb {A B} (m : M unit) (e : exn) (f : A -> M B) (s : state) :
  bind (bind m (fun _ => raise e)) f s = bind m (fun _ => raise e) s.
Proof.
  unfold bind, raise. destruct (m s) as [[a | e' |] s']; reflexivity.
Qed.

Lemma invoke_all_single (W : world) (c : call) (s : state) :
  invoke_all W [c] s = invoke W c s.
Proof. cbn [invoke_all for_each]. apply bind_ret_unit. Qed.

Lemma invoke_all_prefix (W : world) (l : list call) (s : state)
    (r : result unit) (s' : state) :
  invoke_all W l s = (r, s') ->
  r <> Running /\
  exists m, trace s' = trace s ++ firstn m l /\ (r = Ok tt -> firstn m l = l).
Proof.
  rewrite invoke_all_run.
  destruct (first_fault W (clock s) (List.length l)) as [[j e] |]; intro E;
    inversion E; subst; cbn [trace]; (split; [discriminate |]).
  - exists j. split; [reflexivity | discriminate].
  - exists (List.length l). rewrite firstn_all. split; reflexivity.
Qed.

Section Listing.

Variable W : world.

Lemma bind_invoke_cons {B} (c : call) (l : list call) (F : unit -> M B) (s : state) :
  bind (invoke_all W (c :: l)) F s =
    bind (perform W c tt) (fun _ => bind (invoke_all W l) F) s.
Proof.
  change (invoke_all W (c :: l))
    with (bind (perform W c tt) (fun _ => invoke_all W l)).
  apply bind_assoc.
Qed.

Lemma bind_invoke_app {B} (l1 l2 : list call) (F : unit -> M B) (s : state) :
  bind (invoke_all W (l1 ++ l2)) F s =
    bind (invoke_all W l1) (fun _ => bind (invoke_all W l2) F) s.
Proof.
  etransitivity; [apply bind_ext; [apply invoke_all_app | intros; reflexivity] |].
  apply bind_assoc.
Qed.

(** The listing loop from the device after [pre] on: the calls of
    [listing_from], then what follows the loop, or the decoding error
    of the first input device with a name that does not decode. *)
Lemma listing_loop {B} (K : M B) (rest pre : list device_info) (s : state) :
  devices W = pre ++ rest ->
  bind (for_each (map Z.of_nat (seq (List.length pre) (List.length rest)))
                 (list_device W))
       (fun _ => K) s =
    bind (invoke_all W (listing_from (List.length pre) rest))
         (fun _ => if listing_ok rest then K else raise UnicodeDecodeError) s.
Proof.
  revert pre s. induction rest as [| d rest IH]; intros pre s D; [reflexivity |].
  assert (Next : forall s1,
            bind (for_each (map Z.of_nat (seq (S (List.length pre)) (List.length rest)))
                           (list_device W))
                 (fun _ => K) s1 =
              bind (invoke_all W (listing_from (S (List.length pre)) rest))
                   (fun _ => if listing_ok rest then K else raise UnicodeDecodeError) s1).
  { intro s1. specialize (IH (pre ++ [d]) s1).
    rewrite length_app, Nat.add_1_r in IH. apply IH.
    rewrite D, <- app_assoc. reflexivity. }
  cbn [List.length seq map for_each listing_from].
  rewrite bind_assoc. unfold list_device at 1.
  rewrite bind_assoc, bind_perform.
  rewrite Nat2Z.id, D, app_nth2, Nat.sub_diag by lia. cbn [nth].
  rewrite bind_invoke_app. unfold listed. rewrite bind_invoke_cons, bind_perform.
  destruct (faults W (clock s)) as [e |]; [reflexivity |].
  unfold listing_ok. cbn [forallb]. fold (listing_ok rest).
  unfold listable, decodable, bytes_decode.
  destruct (is_input d =? 0); cbn [orb andb].
  { exact (Next _). }
  destruct (decodes (interf d)); cbn [andb]; [| reflexivity].
  destruct (decodes (name d)); [| reflexivity].
  rewrite bind_invoke_cons.
  unfold logger_info, invoke, ret. unfold bind at 1 2 3.
  unfold bind at 2. unfold perform at 1 2. cbn [clock trace].
  destruct (faults W (S (clock s))) as [e |]; [reflexivity |].
  exact (Next _).
Qed.

Lemma list_mode_calls (s : state) :
  list_mode W s =
    bind (invoke_all W
            (midi_get_count
               :: listing_from 0 (devices W)
                    ++ (if listing_ok (devices W) then [midi_quit] else [])))
         (fun _ => raise (listing_exit (devices W))) s.
Proof.
  unfold list_mode. rewrite bind_invoke_cons, !bind_perform.
  destruct (faults W (clock s)) as [e |]; [reflexivity |].
  unfold range. rewrite Nat2Z.id.
  rewrite (listing_loop _ (devices W) [] _ eq_refl).
  rewrite bind_invoke_app. cbn [List.length].
  apply bind_ext; [reflexivity | intros _ s2].
  unfold listing_exit. destruct (listing_ok (devices W)); [| reflexivity].
  rewrite bind_invoke_cons. apply bind_ext; reflexivity.
Qed.

(** [main] in listing mode: the listing calls, then [sys.exit(0)] or the
    decoding error. *)
Lemma main_listing (args : arguments) (fuel : nat) (s : state) :
  list_midi_devices args = true ->
  main W args fuel s =
    bind (invoke_all W (listing_calls (devices W)))
         (fun _ => raise (listing_exit (devices W))) s.
Proof.
  intro L. unfold main, startup. rewrite L.
  unfold listing_calls. rewrite bind_invoke_cons, !bind_assoc.
  apply bind_ext; [reflexivity | intros _ s1].
  rewrite bind_assoc.
  etransitivity; [apply bind_ext; [apply list_mode_calls | intros; reflexivity] |].
  apply bind_raise_absorb.
Qed.

End Listing.

Lemma listing_from_logs (i : nat) (ds : list device_info) :
  listing_ok ds = true ->
  count is_log (listing_from i ds) = List.length (filter is_input_device ds).
Proof.
  revert i. induction ds as [| d ds IH]; intros i Ok; [reflexivity |].
  unfold listing_ok in Ok. cbn [forallb] in Ok.
  apply andb_prop in Ok as [Ld Ok].
  cbn [listing_from filter]. rewrite Ld, count_app, (IH (S i) Ok).
  unfold listed, is_input_device. unfold listable in Ld.
  destruct (is_input d =? 0); [reflexivity |].
  cbn [orb] in Ld. rewrite Ld. reflexivity.
Qed.

Lemma listing_from_forall (P : call -> bool) (i : nat) (ds : list device_info) :
  (forall j, P (midi_get_device_info j) = true) ->
  (forall t v, P (logger INFO t v) = true) ->
  forallb P (listing_from i ds) = true.
Proof.
  intros Pg Pl. revert i. induction ds as [| d ds IH]; intro i; [reflexivity |].
  cbn [listing_from]. rewrite forallb_app.
  assert (T : forallb P (if listable d then listing_from (S i) ds else []) = true)
    by (destruct (listable d); [apply IH | reflexivity]).
  rewrite T, andb_true_r.
  unfold listed. destruct (is_input d =? 0); [| destruct (decodable d)];
    cbn [forallb]; rewrite Pg, ?Pl; reflexivity.
Qed.

Lemma forallb_count_zero (p : call -> bool) (t : list call) :
  forallb (fun c => negb (p c)) t = true -> count p t = O.
Proof.
  induction t as [| c t IH]; [reflexivity |].
  cbn [forallb]. intro F. apply andb_prop in F as [Fc Ft].
  unfold count in *. cbn [filter]. destruct (p c); [discriminate | auto].
Qed.

(** X4: with [--list-midi-devices], when no call raises, [main] asks for
    the device count and then for the information of each device in
    index order, and logs one line for each device that is an input,
    right after asking for it, and none for the others. When every name
    it has to decode is well-formed UTF-8 it gets past every device,
    quits MIDI and exits with status 0. When the name of an input
    device does not decode, it stops at that device with
    UnicodeDecodeError: that device is not logged, the devices after it
    are not asked for, MIDI is not quit and the exit status is 1. The
    other flags play no part. *)
Theorem listing_lists_inputs (W : world) (args : arguments) (fuel : nat) :
  list_midi_devices args = true ->
  quiet W 0 (List.length (listing_calls (devices W))) ->
  main W args fuel initial =
    (Raise (listing_exit (devices W)),
     {| clock := List.length (listing_calls (devices W));
        trace := listing_calls (devices W) |}) /\
  (listing_ok (devices W) = true ->
     exit_status (fst (main W args fuel initial)) = Some 0 /\
     count is_log (listing_calls (devices W))
       = List.length (filter is_input_device (devices W)) /\
     count is_quit (listing_calls (devices W)) = 1%nat) /\
  (listing_ok (devices W) = false ->
     fst (main W args fuel initial) = Raise UnicodeDecodeError /\
     exit_status (fst (main W args fuel initial)) = Some 1 /\
     count is_quit (listing_calls (devices W)) = O).
Proof.
  intros L Q.
  assert (E : main W args fuel initial =
                (Raise (listing_exit (devices W)),
                 {| clock := List.length (listing_calls (devices W));
                    trace := listing_calls (devices W) |})).
  { rewrite (main_listing W args fuel initial L). unfold bind.
    rewrite invoke_all_quiet by exact Q. reflexivity. }
  rewrite E. cbn [fst]. split; [reflexivity |].
  assert (Nq : count is_quit (listing_from 0 (devices W)) = O)
    by (apply forallb_count_zero, listing_from_forall; reflexivity).
  unfold listing_exit, listing_calls.
  change (midi_init :: midi_get_count :: ?l) with ([midi_init; midi_get_count] ++ l).
  split; intro Ok; rewrite Ok.
  - split; [reflexivity |]. rewrite !count_app, Nq, (listing_from_logs 0 _ Ok).
    split; [| reflexivity].
    change (count is_log [midi_init; midi_get_count]) with O.
    change (count is_log [midi_quit]) with O. lia.
  - split; [reflexivity |]. split; [reflexivity |].
    rewrite !count_app, Nq. reflexivity.
Qed.

Lemma listing_lists_inputs_witness :
  main two_devices listing_arguments 2 initial
    = (Raise (listing_exit (devices two_devices)),
       {| clock := List.length (listing_calls (devices two_devices));
          trace := listing_calls (devices two_devices) |}) /\
  exit_status (fst (main two_devices listing_arguments 2 initial)) = Some 0 /\
  count is_log (listing_calls (devices two_devices)) = 1%nat /\
  count is_quit (listing_calls (devices two_devices)) = 1%nat.
Proof.
  destruct (listing_lists_inputs two_devices listing_arguments 2 eq_refl
              (fun j _ => eq_refl)) as [Run [Good _]].
  split; [exact Run | exact (Good eq_refl)].
Defined.

(** The listing with a device name that does not decode: the output
    port is asked for, the input after it is asked for and not logged,
    the third device is not reached and MIDI is not quit. *)
Remark listing_stops_at_bad_name :
  main bad_name listing_arguments 2 initial =
    (Raise UnicodeDecodeError,
     {| clock := 4;
        trace := [midi_init; midi_get_count; midi_get_device_info 0;
                  midi_get_device_info 1] |}) /\
  exit_status (fst (main bad_name listing_arguments 2 initial)) = Some 1.
Proof. split; reflexivity. Qed.

Lemma listing_calls_forall (P : call -> bool) (ds : list device_info) :
  P midi_init = true -> P midi_get_count = true -> P midi_quit = true ->
  (forall j, P (midi_get_device_info j) = true) ->
  (forall t v, P (logger INFO t v) = true) ->
  forallb P (listing_calls ds) = true.
Proof.
  intros P1 P2 P3 Pg Pl. unfold listing_calls. cbn [forallb].
  rewrite P1, P2, forallb_app, (listing_from_forall P 0 ds Pg Pl).
  destruct (listing_ok ds); cbn [forallb andb]; rewrite ?P3; reflexivity.
Qed.

Lemma first_fault_is_fault (W : world) (from len j : nat) (e : exn) :
  first_fault W from len = Some (j, e) -> exists k, faults W k = Some e.
Proof.
  revert from j. induction len as [| len IH]; intros from j FF; [discriminate |].
  cbn [first_fault] in FF.
  destruct (faults W from) as [e' |] eqn:F.
  - inversion FF; subst. exists from. exact F.
  - destruct (first_fault W (S from) len) as [[j' e''] |] eqn:FF'; [| discriminate].
    inversion FF; subst. exact (IH _ _ FF').
Qed.

(** X5: with [--list-midi-devices], whatever the world does and whatever
    the device names are, [main] never returns and never enters the
    loop: it ends by [SystemExit 0], by the UnicodeDecodeError of a
    device name, or by the exception of the call that raised, and what
    it has called is an initial part of the listing calls, so it has
    opened no device, made no client, sent nothing and closed
    nothing. *)
Theorem listing_opens_nothing (W : world) (args : arguments) (fuel : nat) :
  list_midi_devices args = true ->
  exists e s' n,
    main W args fuel initial = (Raise e, s') /\
    trace s' = firstn n (listing_calls (devices W)) /\
    (e = SystemExit 0 \/ e = UnicodeDecodeError \/ exists k, faults W k = Some e) /\
    count is_open (trace s') = O /\
    count is_send (trace s') = O /\
    count is_close (trace s') = O.
Proof.
  intro L. rewrite (main_listing W args fuel initial L). unfold bind.
  rewrite invoke_all_run. cbn [initial clock trace app].
  assert (C : forall p n,
            forallb (fun c => negb (p c)) (listing_calls (devices W)) = true ->
            count p (firstn n (listing_calls (devices W))) = O).
  { intros p n F. apply forallb_count_zero, forallb_firstn. exact F. }
  assert (Co : forall n, count is_open (firstn n (listing_calls (devices W))) = O)
    by (intro n; apply C, listing_calls_forall; reflexivity).
  assert (Cs : forall n, count is_send (firstn n (listing_calls (devices W))) = O)
    by (intro n; apply C, listing_calls_forall; reflexivity).
  assert (Cc : forall n, count is_close (firstn n (listing_calls (devices W))) = O)
    by (intro n; apply C, listing_calls_forall; reflexivity).
  destruct (first_fault W 0 (List.length (listing_calls (devices W))))
    as [[j e] |] eqn:FF.
  - exists e. eexists. exists j. split; [reflexivity |]. cbn [trace].
    split; [reflexivity |]. split; [| auto].
    right. right. exact (first_fault_is_fault W _ _ _ _ FF).
  - exists (listing_exit (devices W)). eexists.
    exists (List.length (listing_calls (devices W))).
    split; [reflexivity |]. cbn [trace]. rewrite firstn_all.
    split; [reflexivity |]. split.
    + unfold listing_exit. destruct (listing_ok (devices W)); auto.
    + rewrite <- (firstn_all (listing_calls (devices W))). auto.
Qed.

Lemma listing_opens_nothing_witness :
  exists e s' n,
    main bad_name listing_arguments 4 initial = (Raise e, s') /\
    trace s' = firstn n (listing_calls (devices bad_name)) /\
    (e = SystemExit 0 \/ e = UnicodeDecodeError \/
     exists k, faults bad_name k = Some e) /\
    count is_open (trace s') = O /\
    count is_send (trace s') = O /\
    count is_close (trace s') = O.
Proof.
  apply (listing_opens_nothing bad_name listing_arguments 4).
  reflexivity.
Defined.

(** ** Start-up *)

Section Startup.

Variable W : world.

Ltac fault_cases :=
  cbn [clock trace];
  repeat match goal with
    | |- context [faults W ?c] =>
        destruct (faults W c); cbn [clock trace]; try reflexivity
    end.

(** [startup] with a device at hand: the calls of [startup_calls]. *)
Lemma startup_with_device (args : arguments) (s : state) :
  list_midi_devices args = false ->
  no_device W args = false ->
  startup W args s = invoke_all W (startup_calls W args) s.
Proof.
  intros L N. unfold startup. rewrite L.
  unfold startup_calls, chosen_input, select_input, no_device in *.
  destruct (midi_device args) as [d |];
    cbn [app invoke_all for_each];
    unfold logger_info; unfold bind, ret, invoke, perform; cbn [clock trace].
  - fault_cases.
  - destruct (faults W (clock s)); cbn [clock trace]; [reflexivity |].
    destruct (faults W (S (clock s))); cbn [clock trace]; [reflexivity |].
    destruct (faults W (S (S (clock s)))); cbn [clock trace]; [reflexivity |].
    rewrite N. fault_cases.
Qed.

(** [startup] with no device to open: the error line, then [sys.exit(1)]. *)
Lemma startup_without_device (args : arguments) (s : state) :
  list_midi_devices args = false ->
  no_device W args = true ->
  startup W args s =
    bind (invoke_all W no_device_calls) (fun _ => raise (SystemExit 1)) s.
Proof.
  intros L N. unfold startup. rewrite L.
  unfold no_device in N. unfold select_input, no_device_calls.
  destruct (midi_device args) as [d |]; [discriminate |].
  cbn [invoke_all for_each].
  unfold logger_error, logger_info, sys_exit;
    unfold bind, ret, raise, invoke, perform; cbn [clock trace].
  destruct (faults W (clock s)); cbn [clock trace]; [reflexivity |].
  destruct (faults W (S (clock s))); cbn [clock trace]; [reflexivity |].
  destruct (faults W (S (S (clock s)))); cbn [clock trace]; [reflexivity |].
  rewrite N. fault_cases.
Qed.

End Startup.

Lemma bind_raised {A B} (m : M A) (f : A -> M B) (s : state)
    (e : exn) (s' : state) :
  m s = (Raise e, s') -> bind m f s = (Raise e, s').
Proof. intro E. unfold bind. rewrite E. reflexivity. Qed.

(** X6: with no [--midi-device] and no default input (the library
    answers -1), when no call raises, [main] logs one line at level
    ERROR and exits with status 1, before any device is opened, any
    client made or any message sent. *)
Theorem no_default_device_exits_1 (W : world) (args : arguments) (fuel : nat) :
  list_midi_devices args = false ->
  midi_device args = None ->
  default_input_id W = -1 ->
  quiet W 0 4 ->
  main W args fuel initial =
    (Raise (SystemExit 1),
     {| clock := 4;
        trace := [midi_init; disp_map "/print" "print_handler";
                  midi_get_default_input_id;
                  logger ERROR "No MIDI input device found." []] |}) /\
  exit_status (fst (main W args fuel initial)) = Some 1.
Proof.
  intros L D I Q.
  assert (N : no_device W args = true).
  { unfold no_device. rewrite D, I. reflexivity. }
  assert (E : main W args fuel initial =
                (Raise (SystemExit 1), {| clock := 4; trace := no_device_calls |})).
  { unfold main. apply bind_raised.
    rewrite (startup_without_device W args initial L N). unfold bind.
    rewrite invoke_all_quiet by exact Q. reflexivity. }
  rewrite E. split; reflexivity.
Qed.

Lemma no_default_device_exits_1_witness :
  main (World [] (-1) (fun _ => false) (fun _ => []) (fun _ => None))
       default_arguments 5 initial =
    (Raise (SystemExit 1),
     {| clock := 4;
        trace := [midi_init; disp_map "/print" "print_handler";
                  midi_get_default_input_id;
                  logger ERROR "No MIDI input device found." []] |}) /\
  exit_status
    (fst (main (World [] (-1) (fun _ => false) (fun _ => []) (fun _ => None))
               default_arguments 5 initial)) = Some 1.
Proof.
  apply (no_default_device_exits_1
           (World [] (-1) (fun _ => false) (fun _ => []) (fun _ => None))
           default_arguments 5); try reflexivity.
  intros j _. reflexivity.
Defined.

(** X7: when a device is at hand and no call raises, start-up opens the
    session with the id of [--midi-device] when there is one, as it is
    given (it is not compared with -1 and the default is not asked for),
    else with the default id; it logs the id and makes the UDP client
    for [--client-ip] and [--client-port]; and the loop is entered. *)
Theorem session_opened_with_chosen_device
    (W : world) (args : arguments) :
  list_midi_devices args = false ->
  no_device W args = false ->
  quiet W 0 (List.length (startup_calls W args)) ->
  startup W args initial =
    (Ok tt,
     {| clock := List.length (startup_calls W args);
        trace := startup_calls W args |}) /\
  (forall d, midi_device args = Some d ->
     startup_calls W args =
       [midi_init; disp_map "/print" "print_handler"; midi_Input d;
        logger INFO "Using MIDI input device ID {input_id}" [VInt d];
        SimpleUDPClient (client_ip args) (client_port args)]) /\
  (midi_device args = None ->
     startup_calls W args =
       [midi_init; disp_map "/print" "print_handler"; midi_get_default_input_id;
        midi_Input (default_input_id W);
        logger INFO "Using MIDI input device ID {input_id}" [VInt (default_input_id W)];
        SimpleUDPClient (client_ip args) (client_port args)]).
Proof.
  intros L N Q. split; [| split].
  - rewrite (startup_with_device W args initial L N).
    rewrite invoke_all_quiet by exact Q. reflexivity.
  - intros d D. unfold startup_calls, chosen_input. rewrite D. reflexivity.
  - intros D. unfold startup_calls, chosen_input. rewrite D. reflexivity.
Qed.

Lemma session_opened_with_chosen_device_witness :
  startup (scripted [] None) (explicit_device (-1)) initial =
    (Ok tt,
     {| clock := List.length (startup_calls (scripted [] None) (explicit_device (-1)));
        trace := startup_calls (scripted [] None) (explicit_device (-1)) |}) /\
  startup_calls (scripted [] None) (explicit_device (-1)) =
    [midi_init; disp_map "/print" "print_handler"; midi_Input (-1);
     logger INFO "Using MIDI input device ID {input_id}" [VInt (-1)];
     SimpleUDPClient "localhost" 9000].
Proof.
  destruct (session_opened_with_chosen_device (scripted [] None) (explicit_device (-1))
              eq_refl eq_refl (scripted_quiet [] 0 _)) as [Run [Explicit _]].
  split; [exact Run | exact (Explicit (-1) eq_refl)].
Defined.

(** ** The shape of every run *)

Lemma halts_bind {A B} (m : M A) (f : A -> M B) :
  halts m -> (forall a, halts (f a)) -> halts (bind m f).
Proof.
  intros Hm Hf s r s' E. unfold bind in E.
  destruct (m s) as [[a | e |] s1] eqn:Em.
  - exact (Hf a _ _ _ E).
  - inversion E. discriminate.
  - exfalso. exact (Hm _ _ _ Em eq_refl).
Qed.

Lemma halts_perform {A} (W : world) (c : call) (a : A) : halts (perform W c a).
Proof.
  intros s r s' E. unfold perform in E.
  destruct (faults W (clock s)); inversion E; discriminate.
Qed.

Lemma halts_ret {A} (a : A) : halts (ret a).
Proof. intros s r s' E. inversion E. discriminate. Qed.

Lemma halts_raise {A} (e : exn) : halts (@raise A e).
Proof. intros s r s' E. inversion E. discriminate. Qed.

Lemma halts_for_each {A} (xs : list A) (body : A -> M unit) :
  (forall x, halts (body x)) -> halts (for_each xs body).
Proof.
  intro Hb. induction xs as [| x xs IH]; [apply halts_ret |].
  cbn [for_each]. apply halts_bind; [apply Hb | intros _; exact IH].
Qed.

Lemma startup_halts (W : world) (args : arguments) : halts (startup W args).
Proof.
  unfold startup, list_mode, select_input, list_device, bytes_decode, logger_info,
    logger_error, invoke, sys_exit.
  repeat first
    [ apply halts_perform | apply halts_ret | apply halts_raise
    | apply halts_bind; [| intro]
    | apply halts_for_each; intro
    | match goal with
      | |- halts (if ?b then _ else _) => destruct b
      | |- halts (match ?o with Some _ => _ | None => _ end) => destruct o
      end ].
Qed.

Section Shape.

Variable W : world.

Lemma on_exit_calls (s : state) : on_exit W s = invoke_all W closing s.
Proof.
  unfold on_exit, closing, logger_info. cbn [invoke_all for_each].
  apply bind_ext; [reflexivity | intros _ s1].
  apply bind_ext; [reflexivity | intros _ s2].
  symmetry. apply bind_ret_unit.
Qed.

Lemma on_interrupt_calls (s : state) : on_interrupt W s = invoke_all W interrupted s.
Proof. symmetry. apply invoke_all_single. Qed.

Lemma startup_listing (args : arguments) (s : state) :
  list_midi_devices args = true ->
  startup W args s =
    bind (invoke_all W (listing_calls (devices W)))
         (fun _ => raise (listing_exit (devices W))) s.
Proof.
  intro L. unfold startup. rewrite L. unfold listing_calls.
  change (invoke_all W (midi_init :: ?l))
    with (bind (perform W midi_init tt) (fun _ => invoke_all W l)).
  rewrite !bind_assoc.
  apply bind_ext; [reflexivity | intros _ s1].
  etransitivity; [apply bind_ext; [apply list_mode_calls | intros; reflexivity] |].
  apply bind_raise_absorb.
Qed.

Lemma bind_raise_not_ok (m : M unit) (e : exn) (s s' : state) :
  bind m (fun _ => raise e) s <> (Ok tt, s').
Proof.
  unfold bind, raise. destruct (m s) as [[a | e' |] s1]; discriminate.
Qed.

(** When [startup] returns, it has made the calls of [startup_calls]. *)
Lemma startup_ok_inv (args : arguments) (s s0 : state) :
  startup W args s = (Ok tt, s0) ->
  list_midi_devices args = false /\
  no_device W args = false /\
  trace s0 = trace s ++ startup_calls W args /\
  clock s0 = (clock s + List.length (startup_calls W args))%nat.
Proof.
  intro E.
  destruct (list_midi_devices args) eqn:L.
  { rewrite (startup_listing args s L) in E. exfalso. exact (bind_raise_not_ok _ _ _ _ E). }
  destruct (no_device W args) eqn:N.
  { rewrite (startup_without_device W args s L N) in E.
    exfalso. exact (bind_raise_not_ok _ _ _ _ E). }
  rewrite (startup_with_device W args s L N), invoke_all_run in E.
  destruct (first_fault W (clock s) (List.length (startup_calls W args))) as [[j e] |];
    inversion E; subst. repeat split.
Qed.

(** What the guarded loop leaves in the trace, whatever raises. *)
Lemma guarded_shape (fuel : nat) (s : state) (r : result unit) (s' : state) :
  try_except_KeyboardInterrupt (loop W fuel) (on_interrupt W) s = (r, s') ->
  exists j i,
    trace s' = trace s ++ firstn j (loop_calls W fuel (clock s)) ++ firstn i interrupted /\
    (r = Running -> firstn j (loop_calls W fuel (clock s)) = loop_calls W fuel (clock s)
                    /\ i = O).
Proof.
  unfold try_except_KeyboardInterrupt. rewrite loop_run. unfold forever.
  rewrite invoke_all_run.
  destruct (first_fault W (clock s) (List.length (loop_calls W fuel (clock s))))
    as [[j e] |].
  - destruct (is_keyboard_interrupt e).
    + rewrite on_interrupt_calls. intro E.
      destruct (invoke_all_prefix W _ _ _ _ E) as [NR [i [T _]]].
      cbn [trace] in T. exists j, i. rewrite T, <- app_assoc.
      split; [reflexivity | intro R; contradiction].
    + intro E. inversion E; subst. cbn [trace]. exists j, O.
      cbn [firstn]. rewrite app_nil_r. split; [reflexivity | discriminate].
  - intro E. inversion E; subst. cbn [trace].
    exists (List.length (loop_calls W fuel (clock s))), O.
    rewrite firstn_all. cbn [firstn]. rewrite app_nil_r. repeat split.
Qed.

(** What the [try] statement leaves in the trace, whatever raises. *)
Lemma serve_shape (fuel : nat) (s : state) (r : result unit) (s' : state) :
  serve W fuel s = (r, s') ->
  exists j i m,
    trace s' =
      trace s ++ firstn j (loop_calls W fuel (clock s))
        ++ firstn i interrupted ++ firstn m closing /\
    (r = Running -> firstn j (loop_calls W fuel (clock s)) = loop_calls W fuel (clock s)
                    /\ i = O /\ m = O).
Proof.
  unfold serve, try_finally.
  destruct (try_except_KeyboardInterrupt (loop W fuel) (on_interrupt W) s)
    as [r1 s1] eqn:G.
  destruct (guarded_shape fuel s r1 s1 G) as [j [i [T1 R1]]].
  destruct r1 as [[] | e |].
  - rewrite on_exit_calls. intro E.
    destruct (invoke_all_prefix W _ _ _ _ E) as [NR [m [T _]]].
    exists j, i, m. rewrite T, T1, <- !app_assoc.
    split; [reflexivity | intro R; contradiction].
  - rewrite on_exit_calls.
    destruct (invoke_all W closing s1) as [r2 s2] eqn:E2.
    destruct (invoke_all_prefix W _ _ _ _ E2) as [NR [m [T _]]].
    intro E. exists j, i, m.
    assert (S2 : s' = s2) by (destruct r2 as [[] | e2 |]; inversion E; reflexivity).
    assert (NR' : r <> Running)
      by (destruct r2 as [[] | e2 |]; inversion E; subst; congruence).
    subst s'. rewrite T, T1, <- !app_assoc.
    split; [reflexivity | intro R; contradiction].
  - intro E. inversion E; subst. destruct (R1 eq_refl) as [Full I0]. subst i.
    exists j, O, O. rewrite T1. cbn [firstn]. rewrite !app_nil_r.
    split; [reflexivity | intros _; repeat split; exact Full].
Qed.

(** Every run of [main]: either start-up did not return, and then
    nothing was sent or closed; or the trace is the start-up calls, an
    initial part of the calls of the loop, and initial parts of the
    [except] and [finally] blocks. *)
Lemma main_shape (args : arguments) (fuel : nat) (r : result unit) (s' : state) :
  main W args fuel initial = (r, s') ->
  (r <> Running /\ r <> Ok tt /\
   count is_send (trace s') = O /\ count is_close (trace s') = O) \/
  (exists j i m,
     trace s' =
       startup_calls W args
         ++ firstn j (loop_calls W fuel (List.length (startup_calls W args)))
         ++ firstn i interrupted ++ firstn m closing /\
     (r = Running ->
        firstn j (loop_calls W fuel (List.length (startup_calls W args)))
          = loop_calls W fuel (List.length (startup_calls W args))
        /\ i = O /\ m = O)).
Proof.
  unfold main, bind.
  destruct (startup W args initial) as [[[] | e |] s0] eqn:St.
  - destruct (startup_ok_inv args initial s0 St) as [_ [_ [T C]]].
    cbn [initial trace clock app] in T, C.
    intro E. right.
    destruct (serve_shape fuel s0 r s' E) as [j [i [m [Ts R]]]].
    rewrite C, T in Ts. rewrite C in R. exists j, i, m. split; assumption.
  - intro E. inversion E; subst. left.
    split; [discriminate |]. split; [discriminate |].
    assert (Os : only (fun c => negb (is_send c)) (startup W args))
      by (apply startup_only; intros; reflexivity).
    assert (Oc : only (fun c => negb (is_close c)) (startup W args))
      by (apply startup_only; intros; reflexivity).
    destruct (Os _ _ _ St) as [d1 [T1 F1]]. destruct (Oc _ _ _ St) as [d2 [T2 F2]].
    cbn [initial trace app] in T1, T2. split.
    + rewrite T1. apply forallb_count_zero. exact F1.
    + rewrite T2. apply forallb_count_zero. exact F2.
  - exfalso. exact (startup_halts W args _ _ _ St eq_refl).
Qed.

End Shape.

Lemma batch_calls_forall (P : call -> bool) (events : list midi_event) :
  (forall address args, P (send_message address args) = true) ->
  (forall template vals, P (logger INFO template vals) = true) ->
  forallb P (batch_calls events) = true.
Proof.
  intros Ps Pl. induction events as [| ev events IH]; [reflexivity |].
  cbn [batch_calls flat_map]. rewrite forallb_app. fold (batch_calls events).
  rewrite IH, andb_true_r. unfold event_calls, raw_calls. cbn [app forallb].
  rewrite Ps, Pl. destruct (decode_event ev); cbn [dispatch forallb];
    rewrite ?Ps, ?Pl; reflexivity.
Qed.

Lemma iteration_polls_once (W : world) (c : nat) :
  count is_poll (iteration_calls W c) = 1%nat /\
  count is_sleep (iteration_calls W c) = 1%nat.
Proof.
  unfold iteration_calls. destruct (poll_answer W c); [| split; reflexivity].
  change (input_poll :: input_read 10 :: batch_calls (read_answer W (S c))
            ++ [time_sleep_ms 10])
    with ([input_poll; input_read 10] ++ batch_calls (read_answer W (S c))
            ++ [time_sleep_ms 10]).
  rewrite !count_app.
  rewrite (forallb_count_zero is_poll (batch_calls (read_answer W (S c))))
    by (apply batch_calls_forall; reflexivity).
  rewrite batch_calls_no_sleep. split; reflexivity.
Qed.

Lemma loop_polls (W : world) (fuel c : nat) :
  count is_poll (loop_calls W fuel c) = fuel /\
  count is_sleep (loop_calls W fuel c) = fuel.
Proof.
  revert c. induction fuel as [| fuel IH]; intro c; [split; reflexivity |].
  cbn [loop_calls]. rewrite !count_app.
  destruct (iteration_polls_once W c) as [P1 S1].
  destruct (IH (c + List.length (iteration_calls W c))%nat) as [P2 S2].
  rewrite P1, S1, P2, S2. split; reflexivity.
Qed.

(** X8: the loop has no end of its own. When a device is at hand and no
    call ever raises, after any number n of iterations [main] is still
    running: it has made the start-up calls and then n iterations, with
    n polls and n sleeps, and it has not closed the device. *)
Theorem loop_keeps_running (W : world) (args : arguments) (fuel : nat) :
  list_midi_devices args = false ->
  no_device W args = false ->
  (forall j, faults W j = None) ->
  exists s',
    main W args fuel initial = (Running, s') /\
    trace s' =
      startup_calls W args ++ loop_calls W fuel (List.length (startup_calls W args)) /\
    count is_poll (loop_calls W fuel (List.length (startup_calls W args))) = fuel /\
    count is_sleep (loop_calls W fuel (List.length (startup_calls W args))) = fuel /\
    count is_close (trace s') = O.
Proof.
  intros L N Q.
  assert (St : startup W args initial =
                 (Ok tt, {| clock := List.length (startup_calls W args);
                            trace := startup_calls W args |})).
  { rewrite (startup_with_device W args initial L N).
    rewrite invoke_all_quiet by (intros j _; apply Q). reflexivity. }
  eexists. rewrite (main_after_startup W args fuel initial _ St).
  unfold serve, try_finally, try_except_KeyboardInterrupt.
  rewrite loop_run. unfold forever.
  rewrite invoke_all_quiet by (intros j _; apply Q). cbn [clock trace].
  split; [reflexivity |]. split; [reflexivity |].
  destruct (loop_polls W fuel (List.length (startup_calls W args))) as [Pn Sn].
  split; [exact Pn |]. split; [exact Sn |].
  cbn [trace]. rewrite count_app.
  rewrite (forallb_count_zero is_close (loop_calls W fuel _))
    by (apply loop_calls_only; reflexivity).
  unfold startup_calls. destruct (midi_device args); reflexivity.
Qed.

Lemma loop_keeps_running_witness :
  exists s',
    main two_devices default_arguments 100 initial = (Running, s') /\
    trace s' =
      startup_calls two_devices default_arguments
        ++ loop_calls two_devices 100
             (List.length (startup_calls two_devices default_arguments)) /\
    count is_poll (loop_calls two_devices 100
                     (List.length (startup_calls two_devices default_arguments)))
      = 100%nat /\
    count is_sleep (loop_calls two_devices 100
                      (List.length (startup_calls two_devices default_arguments)))
      = 100%nat /\
    count is_close (trace s') = O.
Proof.
  apply (loop_keeps_running two_devices default_arguments 100); reflexivity.
Defined.

Lemma sent_firstn (j : nat) (t : list call) :
  exists n, sent (firstn j t) = firstn n (sent t).
Proof.
  revert j. induction t as [| c t IH]; intro j.
  - exists O. destruct j; reflexivity.
  - destruct j as [| j]; [exists O; reflexivity |].
    destruct (IH j) as [n E]. cbn [firstn].
    destruct c; cbn [sent]; try (exists n; exact E).
    exists (S n). cbn [firstn]. rewrite E. reflexivity.
Qed.

Lemma sent_none (t : list call) : count is_send t = O -> sent t = [].
Proof.
  induction t as [| c t IH]; [reflexivity |].
  unfold count in *. destruct c; cbn [filter is_send sent List.length];
    try exact IH. discriminate.
Qed.

Lemma startup_calls_quiet_kinds (W : world) (args : arguments) :
  sent (startup_calls W args) = [] /\ count is_close (startup_calls W args) = O.
Proof.
  unfold startup_calls. destruct (midi_device args); split; reflexivity.
Qed.

Lemma handlers_send_nothing (i m : nat) :
  sent (firstn i interrupted ++ firstn m closing) = [].
Proof.
  destruct i as [| [| i]]; destruct m as [| [| [| [| m]]]]; reflexivity.
Qed.

(** X9: whatever raises, and wherever, the messages a run has sent are
    an initial part of the messages of the iterations as they would go
    undisturbed: no message is sent out of order or twice, and none is
    sent after the call that raised. *)
Theorem messages_are_initial_part (W : world) (args : arguments) (fuel : nat) :
  exists n,
    sent (trace (snd (main W args fuel initial)))
      = firstn n (sent (loop_calls W fuel (List.length (startup_calls W args)))).
Proof.
  destruct (main W args fuel initial) as [r s'] eqn:E. cbn [snd].
  destruct (main_shape W args fuel r s' E)
    as [[_ [_ [Ns _]]] | [j [i [m [T _]]]]].
  - exists O. rewrite (sent_none _ Ns). reflexivity.
  - destruct (sent_firstn j (loop_calls W fuel (List.length (startup_calls W args))))
      as [n En].
    exists n. rewrite T, !sent_app.
    rewrite (proj1 (startup_calls_quiet_kinds W args)).
    rewrite <- sent_app, handlers_send_nothing, app_nil_r. exact En.
Qed.

Lemma closing_prefix_closes (m : nat) : (count is_close (firstn m closing) <= 1)%nat.
Proof. destruct m as [| [| [| [| m]]]]; cbn; lia. Qed.

(** X10: in no run is the device closed twice, and while the loop is
    still running it has not been closed. *)
Theorem device_closed_at_most_once (W : world) (args : arguments) (fuel : nat) :
  (count is_close (trace (snd (main W args fuel initial))) <= 1)%nat /\
  (fst (main W args fuel initial) = Running ->
   count is_close (trace (snd (main W args fuel initial))) = O).
Proof.
  destruct (main W args fuel initial) as [r s'] eqn:E. cbn [fst snd].
  destruct (main_shape W args fuel r s' E)
    as [[_ [_ [_ Nc]]] | [j [i [m [T R]]]]].
  - rewrite Nc. split; [lia | reflexivity].
  - assert (C : count is_close (trace s') = count is_close (firstn m closing)).
    { rewrite T, !count_app.
      rewrite (proj2 (startup_calls_quiet_kinds W args)).
      rewrite (forallb_count_zero is_close (firstn j _))
        by (apply forallb_firstn, loop_calls_only; reflexivity).
      destruct i as [| [| i]]; reflexivity. }
    rewrite C. split; [apply closing_prefix_closes |].
    intro Run. destruct (R Run) as [_ [_ M0]]. subst m. reflexivity.
Qed.

(** X11: a KeyboardInterrupt raised by a call of the loop is caught: the
    calls of the interrupted iteration that were still to come are not
    made, "Shutting down server." is logged once, then the device is
    closed, MIDI is quit, "Server closed." is logged, and [main]
    returns. *)
Theorem interrupt_shuts_down
    (W : world) (args : arguments) (fuel : nat) (s0 : state) (k : nat) :
  startup W args initial = (Ok tt, s0) ->
  (clock s0 <= k < clock s0 + 2 * fuel)%nat ->
  faults W k = Some KeyboardInterrupt ->
  (forall j, j <> k -> faults W j = None) ->
  main W args fuel initial =
    (Ok tt,
     {| clock := k + 5;
        trace := startup_calls W args
                   ++ firstn (k - clock s0) (loop_calls W fuel (clock s0))
                   ++ [logger INFO "Shutting down server." [];
                       input_close; midi_quit; logger INFO "Server closed." []] |}).
Proof.
  intros St B F Q.
  rewrite (main_after_startup W args fuel initial s0 St).
  rewrite (serve_fault W fuel s0 k KeyboardInterrupt B F Q).
  destruct (startup_ok_inv W args initial s0 St) as [_ [_ [T _]]].
  cbn [initial trace app] in T. rewrite T. reflexivity.
Qed.

Lemma interrupt_shuts_down_witness :
  main (scripted [note_on_60] (Some (8%nat, KeyboardInterrupt))) (explicit_device 0) 3
       initial =
    (Ok tt,
     {| clock := 8 + 5;
        trace := startup_calls (scripted [note_on_60] (Some (8%nat, KeyboardInterrupt)))
                   (explicit_device 0)
                   ++ firstn (8 - 5)
                        (loop_calls (scripted [note_on_60] (Some (8%nat, KeyboardInterrupt)))
                           3 5)
                   ++ [logger INFO "Shutting down server." [];
                       input_close; midi_quit; logger INFO "Server closed." []] |}).
Proof.
  refine (interrupt_shuts_down
            (scripted [note_on_60] (Some (8%nat, KeyboardInterrupt)))
            (explicit_device 0) 3 {| clock := 5; trace := _ |} 8 _ _ _ _).
  - reflexivity.
  - cbn. lia.
  - reflexivity.
  - apply scripted_single_fault.
Defined.

Lemma split_middle {A} (p : A -> bool) (x : A) (a b c t1 t2 : list A) :
  p x = true ->
  forallb (fun y => negb (p y)) a = true ->
  forallb (fun y => negb (p y)) c = true ->
  a ++ b ++ c = t1 ++ x :: t2 ->
  exists b1 b2, t1 = a ++ b1 /\ b = b1 ++ x :: b2.
Proof.
  intros Px Fa Fc. revert t1.
  induction a as [| y a IHa]; intro t1.
  - cbn [app]. revert t1. induction b as [| y b IHb]; intros t1 E.
    + cbn [app] in E. rewrite E, forallb_app in Fc. cbn [forallb] in Fc.
      rewrite Px in Fc. cbn in Fc. rewrite andb_false_r in Fc. discriminate.
    + destruct t1 as [| z t1]; cbn [app] in E; inversion E; subst.
      * exists [], b. split; reflexivity.
      * destruct (IHb t1 H1) as [b1 [b2 [E1 E2]]]. cbn [app] in E1. subst.
        exists (z :: b1), b2. split; reflexivity.
  - cbn [forallb] in Fa. apply andb_prop in Fa as [Fy Fa']. intro E.
    destruct t1 as [| z t1]; cbn [app] in E; inversion E; subst.
    + rewrite Px in Fy. discriminate.
    + destruct (IHa Fa' t1 H1) as [b1 [b2 [E1 E2]]]. subst.
      exists b1, b2. split; reflexivity.
Qed.

Lemma startup_calls_session (W : world) (args : arguments) :
  In (midi_Input (chosen_input W args)) (startup_calls W args) /\
  In (SimpleUDPClient (client_ip args) (client_port args)) (startup_calls W args) /\
  forallb (fun c => negb (is_send c)) (startup_calls W args) = true /\
  forallb not_close (startup_calls W args) = true.
Proof.
  unfold startup_calls. destruct (midi_device args); cbn; intuition.
Qed.

(** X12: messages are sent only while the session is open: in every run,
    whatever raises, each [send_message] in the trace comes after the
    device has been opened and the UDP client for [--client-ip] and
    [--client-port] has been made, and before any close of the device. *)
Theorem sends_only_in_session
    (W : world) (args : arguments) (fuel : nat)
    (t1 t2 : list call) (address : string) (margs : list Z) :
  trace (snd (main W args fuel initial)) = t1 ++ send_message address margs :: t2 ->
  In (midi_Input (chosen_input W args)) t1 /\
  In (SimpleUDPClient (client_ip args) (client_port args)) t1 /\
  ~ In input_close t1.
Proof.
  destruct (main W args fuel initial) as [r s'] eqn:E. cbn [snd]. intro H.
  destruct (main_shape W args fuel r s' E)
    as [[_ [_ [Ns _]]] | [j [i [m [T _]]]]].
  - exfalso. rewrite H, count_app in Ns. unfold count in Ns at 2.
    cbn [filter is_send List.length] in Ns. lia.
  - destruct (startup_calls_session W args) as [Io [Ic [Fs Fc]]].
    rewrite H in T. symmetry in T.
    destruct (split_middle is_send (send_message address margs)
                (startup_calls W args)
                (firstn j (loop_calls W fuel (List.length (startup_calls W args))))
                (firstn i interrupted ++ firstn m closing) t1 t2)
      as [b1 [b2 [E1 E2]]]; auto.
    { destruct i as [| [| i]]; destruct m as [| [| [| [| m]]]]; reflexivity. }
    subst t1. split; [apply in_or_app; left; exact Io |].
    split; [apply in_or_app; left; exact Ic |].
    assert (Fb : forallb not_close (b1 ++ send_message address margs :: b2) = true).
    { rewrite <- E2. apply forallb_firstn, loop_calls_only; reflexivity. }
    rewrite forallb_app in Fb. apply andb_prop in Fb as [Fb1 _].
    intro I. apply in_app_or in I as [I | I].
    + exact (forallb_In_false not_close _ input_close Fc eq_refl I).
    + exact (forallb_In_false not_close _ input_close Fb1 eq_refl I).
Qed.

Lemma sends_only_in_session_witness :
  In (midi_Input 0)
     [midi_init; disp_map "/print" "print_handler"; midi_Input 0;
      logger INFO "Using MIDI input device ID {input_id}" [VInt 0];
      SimpleUDPClient "localhost" 9000; input_poll; input_read 10] /\
  In (SimpleUDPClient "localhost" 9000)
     [midi_init; disp_map "/print" "print_handler"; midi_Input 0;
      logger INFO "Using MIDI input device ID {input_id}" [VInt 0];
      SimpleUDPClient "localhost" 9000; input_poll; input_read 10] /\
  ~ In input_close
     [midi_init; disp_map "/print" "print_handler"; midi_Input 0;
      logger INFO "Using MIDI input device ID {input_id}" [VInt 0];
      SimpleUDPClient "localhost" 9000; input_poll; input_read 10].
Proof.
  apply (sends_only_in_session
           (scripted [note_on_60] (Some (8%nat, KeyboardInterrupt))) (explicit_device 0) 3
           _
           [logger INFO "Shutting down server." [];
            input_close; midi_quit; logger INFO "Server closed." []]
           "/midi" [144; 60; 100]).
  reflexivity.
Defined.

(** ** A second exception while shutting down *)

Lemma loop_first_fault (W : world) (fuel : nat) (s : state) (k : nat) (e : exn) :
  (clock s <= k < clock s + 2 * fuel)%nat ->
  faults W k = Some e ->
  (forall j, (clock s <= j < k)%nat -> faults W j = None) ->
  loop W fuel s =
    (Raise e, {| clock := S k; trace := trace s ++ completed W fuel s k |}).
Proof.
  intros [Lo Hi] F Q.
  rewrite loop_run. unfold forever. rewrite invoke_all_run.
  rewrite (first_fault_at W (clock s) _ (k - clock s) e).
  - unfold completed. do 2 f_equal. lia.
  - pose proof (loop_calls_length W fuel (clock s)). lia.
  - intros j Hj. apply Q. lia.
  - replace (clock s + (k - clock s))%nat with k by lia. exact F.
Qed.

(** X13: when an exception other than KeyboardInterrupt ends the loop
    and [midi_input.close()] then raises too, the exception of the close
    is the one that leaves [main], in place of the first one, and
    [pygame.midi.quit()] and the line "Server closed." are skipped. *)
Theorem close_failure_masks
    (W : world) (args : arguments) (fuel : nat) (s0 : state) (k : nat) (e e' : exn) :
  startup W args initial = (Ok tt, s0) ->
  (clock s0 <= k < clock s0 + 2 * fuel)%nat ->
  faults W k = Some e ->
  is_keyboard_interrupt e = false ->
  faults W (S k) = Some e' ->
  (forall j, (clock s0 <= j < k)%nat -> faults W j = None) ->
  main W args fuel initial =
    (Raise e',
     {| clock := k + 2;
        trace := startup_calls W args
                   ++ firstn (k - clock s0) (loop_calls W fuel (clock s0)) |}).
Proof.
  intros St B F NK F' Q.
  rewrite (main_after_startup W args fuel initial s0 St).
  unfold serve, try_finally, try_except_KeyboardInterrupt.
  rewrite (loop_first_fault W fuel s0 k e B F Q), NK.
  rewrite on_exit_calls, invoke_all_run. cbn [clock trace closing List.length first_fault].
  rewrite F'. cbn [firstn]. rewrite app_nil_r.
  destruct (startup_ok_inv W args initial s0 St) as [_ [_ [T _]]].
  cbn [initial trace app] in T. rewrite T. unfold completed.
  do 2 f_equal. lia.
Qed.

Lemma close_failure_masks_witness :
  main (faulty [note_on_60] [(7%nat, OSError); (8%nat, MidiException)])
       (explicit_device 0) 3 initial =
    (Raise MidiException,
     {| clock := 7 + 2;
        trace := startup_calls
                   (faulty [note_on_60] [(7%nat, OSError); (8%nat, MidiException)])
                   (explicit_device 0)
                   ++ firstn (7 - 5)
                        (loop_calls
                           (faulty [note_on_60] [(7%nat, OSError); (8%nat, MidiException)])
                           3 5) |}).
Proof.
  refine (close_failure_masks
            (faulty [note_on_60] [(7%nat, OSError); (8%nat, MidiException)])
            (explicit_device 0) 3 {| clock := 5; trace := _ |} 7 OSError MidiException
            _ _ _ _ _ _).
  - reflexivity.
  - cbn. lia.
  - reflexivity.
  - reflexivity.
  - reflexivity.
  - intros j [Lo Hi]. cbn in Lo, Hi.
    assert (C : j = 5%nat \/ j = 6%nat) by lia.
    destruct C as [-> | ->]; reflexivity.
Defined.

(** X14: when the loop is interrupted and the log call of the [except]
    block raises in its turn, the [finally] block still runs: the device
    is closed, MIDI is quit, "Server closed." is logged, and the second
    exception leaves [main]; "Shutting down server." is not in the
    trace. *)
Theorem handler_failure_still_closes
    (W : world) (args : arguments) (fuel : nat) (s0 : state) (k : nat) (e' : exn) :
  startup W args initial = (Ok tt, s0) ->
  (clock s0 <= k < clock s0 + 2 * fuel)%nat ->
  faults W k = Some KeyboardInterrupt ->
  faults W (S k) = Some e' ->
  (forall j, (clock s0 <= j < k)%nat -> faults W j = None) ->
  quiet W (S (S k)) 3 ->
  main W args fuel initial =
    (Raise e',
     {| clock := k + 5;
        trace := startup_calls W args
                   ++ firstn (k - clock s0) (loop_calls W fuel (clock s0))
                   ++ [input_close; midi_quit; logger INFO "Server closed." []] |}).
Proof.
  intros St B F F' Q Q3.
  rewrite (main_after_startup W args fuel initial s0 St).
  unfold serve, try_finally, try_except_KeyboardInterrupt.
  rewrite (loop_first_fault W fuel s0 k KeyboardInterrupt B F Q).
  cbn [is_keyboard_interrupt].
  rewrite on_interrupt_calls, invoke_all_run.
  cbn [clock trace interrupted List.length first_fault]. rewrite F'.
  cbn [firstn]. rewrite app_nil_r.
  rewrite on_exit_run
    by (intros j Hj; cbn [clock];
        replace (S k + 1 + j)%nat with (S (S k) + j)%nat by lia;
        apply Q3; exact Hj).
  cbn [clock trace].
  destruct (startup_ok_inv W args initial s0 St) as [_ [_ [T _]]].
  cbn [initial trace app] in T. rewrite T. unfold completed, closing.
  rewrite <- app_assoc. do 2 f_equal. lia.
Qed.

Lemma handler_failure_still_closes_witness :
  main (faulty [note_on_60] [(7%nat, KeyboardInterrupt); (8%nat, KeyboardInterrupt)])
       (explicit_device 0) 3 initial =
    (Raise KeyboardInterrupt,
     {| clock := 7 + 5;
        trace := startup_calls
                   (faulty [note_on_60]
                      [(7%nat, KeyboardInterrupt); (8%nat, KeyboardInterrupt)])
                   (explicit_device 0)
                   ++ firstn (7 - 5)
                        (loop_calls
                           (faulty [note_on_60]
                              [(7%nat, KeyboardInterrupt); (8%nat, KeyboardInterrupt)])
                           3 5)
                   ++ [input_close; midi_quit; logger INFO "Server closed." []] |}).
Proof.
  refine (handler_failure_still_closes
            (faulty [note_on_60] [(7%nat, KeyboardInterrupt); (8%nat, KeyboardInterrupt)])
            (explicit_device 0) 3 {| clock := 5; trace := _ |} 7 KeyboardInterrupt
            _ _ _ _ _ _).
  - reflexivity.
  - cbn. lia.
  - reflexivity.
  - reflexivity.
  - intros j [Lo Hi]. cbn in Lo, Hi.
    assert (C : j = 5%nat \/ j = 6%nat) by lia.
    destruct C as [-> | ->]; reflexivity.
  - intros j Hj.
    assert (C : j = 0%nat \/ j = 1%nat \/ j = 2%nat) by lia.
    destruct C as [-> | [-> | ->]]; reflexivity.
Defined.
